(** * Voice-activity segmentation engine of [asr/asr_with_vad.py]

    A shallow embedding of the class [VoiceRecognitionVAD]: the
    pre-activation buffer (a Python [queue.Queue]), the sample accumulator,
    the gap counter and the methods that drive them, followed by the
    properties of the engine.

    Python objects are mutable, so every method is a computation over the
    engine record.  A method call either returns, raises (the object keeps
    the mutations done so far) or blocks for ever on a queue; on the way it
    emits the externally visible events (log lines, stream control, calls to
    the transcription collaborator). *)

From Stdlib Require Import ZArith List Bool String Lia.
Import ListNotations.

(** ** Module-level constants

    [VAD_SIZE], [BUFFER_SIZE] and [PAUSE_LIMIT] are module constants in the
    source; they are gathered in a record so that other settings can be
    studied as well. *)

Record config : Type := {
  VAD_SIZE : Z;      (* milliseconds per frame *)
  BUFFER_SIZE : Z;   (* milliseconds of buffer before activation *)
  PAUSE_LIMIT : Z    (* milliseconds of pause before processing *)
}.

Definition source_config : config :=
  {| VAD_SIZE := 50; BUFFER_SIZE := 600; PAUSE_LIMIT := 800 |}.

(** ** Python values and exceptions *)

(** What the transcription callable may hand back. *)
Inductive pyval : Type :=
| PyNone
| PyStr (s : string).

(** Python truthiness: [None] and the empty string are falsy. *)
Definition truthy (v : pyval) : bool :=
  match v with
  | PyNone => false
  | PyStr EmptyString => false
  | PyStr (String _ _) => true
  end.

Inductive exn : Type :=
| ZeroDivisionError
| ValueError
| TranscribeError.

(** One call of the collaborator: it raises or returns a value. *)
Inductive reply : Type :=
| Raises
| Returns (text : pyval).

(** Python's [a // b] on integers: floor division, raising on [b = 0]. *)
Definition floordiv (a b : Z) : option Z :=
  if (b =? 0)%Z then None else Some (a / b)%Z.

(** The dictionary returned by [process_detected_audio]. *)
Record heard : Type := {
  name : string;
  content : pyval;
  type : string
}.

(** ** [queue.Queue]

    [maxsize <= 0] means an unbounded queue.  [get] on an empty queue and
    [put] on a full one block; with a single thread they block for ever,
    which is [None] here. *)

Module Queue.

Record t (A : Type) : Type := mk {
  maxsize : Z;
  queue : list A
}.
Arguments mk {A}.
Arguments maxsize {A}.
Arguments queue {A}.

Definition create {A : Type} (maxsize : Z) : t A := mk maxsize [].

Definition qsize {A : Type} (q : t A) : nat := List.length (queue q).

Definition full {A : Type} (q : t A) : bool :=
  ((0 <? maxsize q) && (maxsize q <=? Z.of_nat (qsize q)))%Z.

Definition get {A : Type} (q : t A) : option (A * t A) :=
  match queue q with
  | [] => None
  | x :: rest => Some (x, mk (maxsize q) rest)
  end.

Definition put {A : Type} (q : t A) (item : A) : option (t A) :=
  if ((0 <? maxsize q) && (maxsize q <=? Z.of_nat (qsize q)))%Z
  then None
  else Some (mk (maxsize q) (queue q ++ [item])).

Definition clear {A : Type} (q : t A) : t A := mk (maxsize q) [].

End Queue.

(** ** The engine *)

Section Model.

(** One audio sample; the engine never looks inside. *)
Variable sample : Type.

(** A frame is the one-dimensional array delivered by the audio callback. *)
Definition frame : Type := list sample.

(** The attributes of [VoiceRecognitionVAD] that the methods touch. *)
Record engine : Type := {
  samples : list frame;
  buffer : Queue.t frame;
  recording_started : bool;
  gap_counter : Z;
  input_stream : bool   (* [true] while the input stream is started *)
}.

Definition with_samples (v : list frame) (st : engine) : engine :=
  {| samples := v; buffer := buffer st;
     recording_started := recording_started st;
     gap_counter := gap_counter st; input_stream := input_stream st |}.

Definition with_buffer (v : Queue.t frame) (st : engine) : engine :=
  {| samples := samples st; buffer := v;
     recording_started := recording_started st;
     gap_counter := gap_counter st; input_stream := input_stream st |}.

Definition with_recording_started (v : bool) (st : engine) : engine :=
  {| samples := samples st; buffer := buffer st;
     recording_started := v;
     gap_counter := gap_counter st; input_stream := input_stream st |}.

Definition with_gap_counter (v : Z) (st : engine) : engine :=
  {| samples := samples st; buffer := buffer st;
     recording_started := recording_started st;
     gap_counter := v; input_stream := input_stream st |}.

Definition with_input_stream (v : bool) (st : engine) : engine :=
  {| samples := samples st; buffer := buffer st;
     recording_started := recording_started st;
     gap_counter := gap_counter st; input_stream := v |}.

(** Externally visible events, oldest first. *)
Inductive event : Type :=
| EvLog (msg : string)
| EvStreamStart
| EvStreamStop
| EvTranscribe (audio : list sample).

Inductive outcome (A : Type) : Type :=
| Ok (a : A) (st : engine) (tr : list event)
| Exn (e : exn) (st : engine) (tr : list event)
| Hang (st : engine) (tr : list event).
Arguments Ok {A}.
Arguments Exn {A}.
Arguments Hang {A}.

Definition M (A : Type) : Type := engine -> outcome A.

Definition state_of {A : Type} (o : outcome A) : engine :=
  match o with
  | Ok _ st _ | Exn _ st _ | Hang st _ => st
  end.

Definition trace_of {A : Type} (o : outcome A) : list event :=
  match o with
  | Ok _ _ tr | Exn _ _ tr | Hang _ tr => tr
  end.

(** [after tr o]: the events [tr] happened before those of [o]. *)
Definition after {A : Type} (tr : list event) (o : outcome A) : outcome A :=
  match o with
  | Ok a st tr' => Ok a st (tr ++ tr')
  | Exn e st tr' => Exn e st (tr ++ tr')
  | Hang st tr' => Hang st (tr ++ tr')
  end.

Definition ret {A : Type} (a : A) : M A := fun st => Ok a st [].

Definition bind {A B : Type} (m : M A) (k : A -> M B) : M B :=
  fun st =>
    match m st with
    | Ok a st' tr => after tr (k a st')
    | Exn e st' tr => Exn e st' tr
    | Hang st' tr => Hang st' tr
    end.

Definition self : M engine := fun st => Ok st st [].
Definition update (f : engine -> engine) : M unit := fun st => Ok tt (f st) [].
Definition emit (ev : event) : M unit := fun st => Ok tt st [ev].
Definition raise {A : Type} (e : exn) : M A := fun st => Exn e st [].
Definition block {A : Type} : M A := fun st => Hang st [].

Notation "x <- m ;; k" := (bind m (fun x => k))
  (at level 61, m at next level, right associativity).
Notation "m ;; k" := (bind m (fun _ => k))
  (at level 61, right associativity).

Definition logger_info (msg : string) : M unit := emit (EvLog msg).

(** [self.buffer.get()] and [self.buffer.put(sample)]. *)
Definition buffer_get : M frame :=
  st <- self ;;
  match Queue.get (buffer st) with
  | Some (x, q) => update (with_buffer q) ;; ret x
  | None => block
  end.

Definition buffer_put (item : frame) : M unit :=
  st <- self ;;
  match Queue.put (buffer st) item with
  | Some q => update (with_buffer q)
  | None => block
  end.

Definition input_stream_start : M unit :=
  update (with_input_stream true) ;; emit EvStreamStart.

Definition input_stream_stop : M unit :=
  update (with_input_stream false) ;; emit EvStreamStop.

Variable cfg : config.

(** The callable handed to the constructor ([self.transcribe]). *)
Variable transcribe : list sample -> reply.

(** The part of [__init__] that sets up the recorder state;
    [BUFFER_SIZE // VAD_SIZE] raises when [VAD_SIZE] is zero. *)
Definition __init__ : option engine :=
  match floordiv (BUFFER_SIZE cfg) (VAD_SIZE cfg) with
  | None => None
  | Some n =>
      Some {| samples := [];
              buffer := Queue.create n;
              recording_started := false;
              gap_counter := 0%Z;
              input_stream := false |}
  end.

Definition identify_speaker (audio_clip : list frame) : string :=
  "GoldRoger"%string.

(** [np.concatenate] refuses an empty list of arrays. *)
Definition asr (samples0 : list frame) : M pyval :=
  match samples0 with
  | [] => raise ValueError
  | _ =>
      let audio := List.concat samples0 in
      emit (EvTranscribe audio) ;;
      match transcribe audio with
      | Raises => raise TranscribeError
      | Returns detected_text => ret detected_text
      end
  end.

Definition process_detected_audio (input_sample : list frame)
  : M (option heard) :=
  logger_info "Detected pause after speech. Processing..." ;;
  logger_info "Stopping listening..." ;;
  st <- self ;;
  let detected_speaker := identify_speaker (samples st) in
  input_stream_stop ;;
  st <- self ;;
  detected_text <- asr (samples st) ;;
  if truthy detected_text
  then ret (Some {| name := detected_speaker;
                    content := detected_text;
                    type := "text" |})
  else ret None.

Definition _manage_pre_activation_buffer (sample0 : frame)
           (vad_confidence : bool) : M unit :=
  st <- self ;;
  (if Queue.full (buffer st) then _ <- buffer_get ;; ret tt else ret tt) ;;
  buffer_put sample0 ;;
  if vad_confidence
  then
    st <- self ;;
    update (with_samples (Queue.queue (buffer st))) ;;
    update (with_recording_started true)
  else ret tt.

Definition _process_activated_audio (sample0 : frame)
           (vad_confidence : bool) : M (option heard) :=
  update (fun st => with_samples (samples st ++ [sample0]) st) ;;
  if negb vad_confidence
  then
    update (fun st => with_gap_counter (gap_counter st + 1)%Z st) ;;
    st <- self ;;
    match floordiv (PAUSE_LIMIT cfg) (VAD_SIZE cfg) with
    | None => raise ZeroDivisionError
    | Some limit =>
        if (limit <=? gap_counter st)%Z
        then st <- self ;; process_detected_audio (samples st)
        else ret None
    end
  else
    update (with_gap_counter 0%Z) ;; ret None.

Definition _handle_audio_sample (sample0 : frame) (vad_confidence : bool)
  : M (option heard) :=
  st <- self ;;
  if negb (recording_started st)
  then _manage_pre_activation_buffer sample0 vad_confidence ;; ret None
  else _process_activated_audio sample0 vad_confidence.

Definition reset : M unit :=
  logger_info "Resetting recorder..." ;;
  update (with_recording_started false) ;;
  update (with_samples []) ;;
  update (with_gap_counter 0%Z) ;;
  update (fun st => with_buffer (Queue.clear (buffer st)) st).

(** The listening loop.  [sample_queue] holds the frames the audio
    callback delivers, in order; once it is exhausted
    [self.sample_queue.get()] blocks.  The frames not consumed are
    returned next to the result. *)
Fixpoint _listen_and_respond (sample_queue : list (frame * bool))
  : M (heard * list (frame * bool)) :=
  match sample_queue with
  | [] => block
  | (sample0, vad_confidence) :: rest =>
      result <- _handle_audio_sample sample0 vad_confidence ;;
      match result with
      | Some r => ret (r, rest)
      | None => _listen_and_respond rest
      end
  end.

Definition start (sample_queue : list (frame * bool))
  : M (heard * list (frame * bool)) :=
  logger_info "Starting Listening..." ;;
  input_stream_start ;;
  _listen_and_respond sample_queue.

Definition start_listening (sample_queue : list (frame * bool))
  : M (heard * list (frame * bool)) :=
  input_stream_start ;;
  heard_text <- _listen_and_respond sample_queue ;;
  reset ;;
  ret heard_text.

(** The engine after a caller has submitted the frames [fs] one by one,
    whatever each call returned. *)
Fixpoint feed (fs : list (frame * bool)) (st : engine) : engine :=
  match fs with
  | [] => st
  | (sample0, vad_confidence) :: rest =>
      feed rest (state_of (_handle_audio_sample sample0 vad_confidence st))
  end.

End Model.

Arguments samples {sample}.
Arguments buffer {sample}.
Arguments recording_started {sample}.
Arguments gap_counter {sample}.
Arguments input_stream {sample}.
Arguments Build_engine {sample}.
Arguments with_samples {sample}.
Arguments with_buffer {sample}.
Arguments with_recording_started {sample}.
Arguments with_gap_counter {sample}.
Arguments with_input_stream {sample}.
Arguments EvLog {sample}.
Arguments EvStreamStart {sample}.
Arguments EvStreamStop {sample}.
Arguments EvTranscribe {sample}.
Arguments Ok {sample A}.
Arguments Exn {sample A}.
Arguments Hang {sample A}.
Arguments state_of {sample A}.
Arguments trace_of {sample A}.
Arguments after {sample A}.
Arguments ret {sample A}.
Arguments bind {sample A B}.
Arguments self {sample}.
Arguments update {sample}.
Arguments emit {sample}.
Arguments raise {sample A}.
Arguments block {sample A}.
Arguments logger_info {sample}.
Arguments buffer_get {sample}.
Arguments buffer_put {sample}.
Arguments input_stream_start {sample}.
Arguments input_stream_stop {sample}.
Arguments __init__ {sample}.
Arguments identify_speaker {sample}.
Arguments asr {sample}.
Arguments process_detected_audio {sample}.
Arguments _manage_pre_activation_buffer {sample}.
Arguments _process_activated_audio {sample}.
Arguments _handle_audio_sample {sample}.
Arguments reset {sample}.
Arguments _listen_and_respond {sample}.
Arguments start {sample}.
Arguments start_listening {sample}.
Arguments feed {sample}.

(** ** Derived notions used by the properties *)

(** Pause threshold and buffer capacity in frames, as the source computes
    them (the division is guarded where it is used). *)
Definition threshold (cfg : config) : Z := (PAUSE_LIMIT cfg / VAD_SIZE cfg)%Z.
Definition capacity (cfg : config) : Z := (BUFFER_SIZE cfg / VAD_SIZE cfg)%Z.

(** The state right after [__init__] or [reset]: not recording, nothing
    accumulated, counter at zero, empty buffer of the configured size. *)
Definition is_fresh {sample : Type} (cfg : config) (st : engine sample) : Prop :=
  recording_started st = false /\
  samples st = [] /\
  gap_counter st = 0%Z /\
  buffer st = Queue.create (capacity cfg).

(** What [reset] is documented to establish. *)
Definition is_reset {sample : Type} (st : engine sample) : Prop :=
  recording_started st = false /\
  samples st = [] /\
  gap_counter st = 0%Z /\
  Queue.queue (buffer st) = [].

(** States the public methods can produce from a constructed engine; the
    collaborator may answer differently at every call. *)
Inductive reachable {sample : Type} (cfg : config) : engine sample -> Prop :=
| reach_init : forall st, __init__ cfg = Some st -> reachable cfg st
| reach_handle : forall transcribe f a st,
    reachable cfg st ->
    reachable cfg (state_of (_handle_audio_sample cfg transcribe f a st))
| reach_reset : forall st,
    reachable cfg st -> reachable cfg (state_of (reset st))
| reach_stream : forall b st,
    reachable cfg st -> reachable cfg (with_input_stream b st).

(** A run of frames the classifier judged inactive. *)
Definition inactive {sample : Type} (fs : list (frame sample))
  : list (frame sample * bool) :=
  map (fun f => (f, false)) fs.

(** Number of inactive frames at the head of a list, up to the first active
    one. *)
Fixpoint leading_inactive {sample : Type} (fs : list (frame sample * bool))
  : nat :=
  match fs with
  | (_, false) :: rest => S (leading_inactive rest)
  | _ => 0
  end.

(** Number of consecutive inactive frames at the end of a run: counted
    backwards from the last frame up to the last active one. *)
Definition consecutive_inactive {sample : Type}
           (fs : list (frame sample * bool)) : nat :=
  leading_inactive (rev fs).

(** A call finalizes when it went through [process_detected_audio], which
    announces itself in the log. *)
Definition is_finalize_log {sample : Type} (ev : event sample) : bool :=
  match ev with
  | EvLog msg => String.eqb msg "Detected pause after speech. Processing..."
  | _ => false
  end.

Definition finalizes {sample A : Type} (o : outcome sample A) : bool :=
  existsb is_finalize_log (trace_of o).

Definition is_reset_log {sample : Type} (ev : event sample) : bool :=
  match ev with
  | EvLog msg => String.eqb msg "Resetting recorder..."
  | _ => false
  end.

(** Buffer contents after the insertion done by
    [_manage_pre_activation_buffer]. *)
Definition inserted {sample : Type} (q : Queue.t (frame sample))
           (f : frame sample) : list (frame sample) :=
  (if Queue.full q then tl (Queue.queue q) else Queue.queue q) ++ [f].

(** The engine after an accepted frame, case by case. *)
Definition idle_step {sample : Type} (f : frame sample) (a : bool)
           (st : engine sample) : engine sample :=
  let q := Queue.mk (Queue.maxsize (buffer st)) (inserted (buffer st) f) in
  if a
  then with_recording_started true (with_samples (Queue.queue q) (with_buffer q st))
  else with_buffer q st.

Definition appended {sample : Type} (f : frame sample) (st : engine sample)
  : engine sample :=
  with_samples (samples st ++ [f]) st.

Definition paused {sample : Type} (f : frame sample) (st : engine sample)
  : engine sample :=
  with_gap_counter (gap_counter st + 1)%Z (appended f st).

(** The events of one pass through [process_detected_audio]. *)
Definition finalize_trace {sample : Type} (acc : list (frame sample))
  : list (event sample) :=
  [EvLog "Detected pause after speech. Processing...";
   EvLog "Stopping listening..."; EvStreamStop;
   EvTranscribe (List.concat acc)].

(** The dictionary built from a transcription. *)
Definition heard_text (text : pyval) : heard :=
  {| name := "GoldRoger"; content := text; type := "text" |}.

(** Buffer bound and idle counter, the facts every reachable state has. *)
Definition inv {sample : Type} (cfg : config) (st : engine sample) : Prop :=
  Queue.maxsize (buffer st) = capacity cfg /\
  ((0 < capacity cfg)%Z -> (Z.of_nat (Queue.qsize (buffer st)) <= capacity cfg)%Z) /\
  (recording_started st = false -> gap_counter st = 0%Z).

(** The outcome of a finalizing call, spelled out. *)
Definition finalized {sample : Type} (transcribe : list sample -> reply)
  (f : frame sample) (st : engine sample)
  : outcome sample (option heard) :=
  let st' := with_input_stream false (paused f st) in
  let tr := finalize_trace (samples st ++ [f]) in
  match transcribe (List.concat (samples st ++ [f])) with
  | Raises => Exn TranscribeError st' tr
  | Returns text =>
      Ok (if truthy text then Some (heard_text text) else None) st' tr
  end.

(** The [n] most recent elements of a history, in arrival order. *)
Definition keep_last {A : Type} (n : nat) (l : list A) : list A :=
  skipn (List.length l - n) l.

(** What a queue of size [m] retains of a history ([m <= 0]: everything). *)
Definition retained {A : Type} (m : Z) (l : list A) : list A :=
  if (0 <? m)%Z then keep_last (Z.to_nat m) l else l.

(** Concrete data for the examples: frames of one sample, two transcribers
    and three settings. *)
Definition tone (n : Z) : frame Z := [n].

Definition hears_hello : list Z -> reply := fun _ => Returns (PyStr "hello").
Definition hears_nothing : list Z -> reply := fun _ => Returns (PyStr EmptyString).

Definition scenario_config : config :=
  {| VAD_SIZE := 50; BUFFER_SIZE := 200; PAUSE_LIMIT := 200 |}.

Definition zero_buffer_config : config :=
  {| VAD_SIZE := 50; BUFFER_SIZE := 0; PAUSE_LIMIT := 200 |}.

Definition fresh_engine (cfg : config) : engine Z :=
  {| samples := [];
     buffer := Queue.create (capacity cfg);
     recording_started := false;
     gap_counter := 0%Z;
     input_stream := false |}.

(** Five inactive frames, three active ones, four inactive ones. *)
Definition scenario : list (frame Z * bool) :=
  inactive [tone 1; tone 2; tone 3; tone 4; tone 5]
  ++ [(tone 6, true); (tone 7, true); (tone 8, true)]
  ++ inactive [tone 9; tone 10; tone 11; tone 12].

(** The engine one frame before the end of the scenario. *)
Definition scenario_before_last : engine Z :=
  feed scenario_config hears_hello (removelast scenario)
       (fresh_engine scenario_config).

(** The events that precede the first call of the collaborator. *)
Fixpoint before_transcription {sample : Type} (tr : list (event sample))
  : list (event sample) :=
  match tr with
  | [] => []
  | EvTranscribe _ :: _ => []
  | ev :: rest => ev :: before_transcription rest
  end.

Definition reset_precedes_transcription {sample : Type}
  (tr : list (event sample)) : bool :=
  existsb is_reset_log (before_transcription tr).

(** Full lookback of an utterance that follows the inactive frames [fs]:
    it begins with the first of them when they fit the capacity [C], and
    with the [C]-th from the end otherwise. *)
Definition begins_with_full_lookback {sample : Type} (C : nat)
  (fs : list (frame sample)) (utterance : list (frame sample)) : Prop :=
  let k := List.length fs in
  (k <= C -> hd_error utterance = nth_error fs 0) /\
  (C < k -> hd_error utterance = nth_error fs (k - C)).

(** A fresh engine of the scenario after four inactive frames: its buffer
    is full. *)
Definition scenario_full_buffer : engine Z :=
  feed scenario_config hears_hello
       (inactive [tone 1; tone 2; tone 3; tone 4])
       (fresh_engine scenario_config).

(** A fresh engine with the constants of the source after twelve inactive
    frames: its buffer is full. *)
Definition source_full_buffer : engine Z :=
  feed source_config hears_hello
       (inactive (map tone [1; 2; 3; 4; 5; 6; 7; 8; 9; 10; 11; 12]%Z))
       (fresh_engine source_config).

(** A collaborator that always raises. *)
Definition always_fails : list Z -> reply := fun _ => Raises.

(** ** The Discord path

    [discord_asr] and [process_detected_audio_discord] read no attribute of
    the recorder but its two collaborators, so they are functions of their
    argument.  [input_sample] is a dictionary; its values are Python
    objects of a type [V] (the audio under ['data'], the speaker under
    ['name']), and the classifier returns a value of a type [G].  A call
    returns or raises, and records the collaborators it called. *)

Module Discord.

Section WithCollaborators.

Variable V : Type.
Variable G : Type.

(** [self.transcribe], here given the value under ['data'] as it is. *)
Variable transcribe : V -> reply.

(** [self.gender_classifier.predict(data, device=self.device)]; [None] when
    it raises. *)
Variable predict : V -> option G.

Definition dict : Type := list (string * V).

(** [d[key]] on a dictionary; [None] stands for [KeyError]. *)
Fixpoint getitem (d : dict) (key : string) : option V :=
  match d with
  | [] => None
  | (k, v) :: rest => if String.eqb k key then Some v else getitem rest key
  end.

Inductive event : Type :=
| EvPredict (data : V)
| EvTranscribe (data : V)
| EvLogError.

Inductive exn : Type :=
| KeyError (key : string)
| PredictError.

Inductive outcome (A : Type) : Type :=
| Returned (a : A) (tr : list event)
| Raised (e : exn) (tr : list event).
Arguments Returned {A}.
Arguments Raised {A}.

(** The dictionary returned on success. *)
Record heard : Type := {
  name : V;
  content : pyval;
  gender : G;
  type : string;
  audio_data : V
}.

(** [try: return self.transcribe(samples)  except Exception: logger.error(e)]:
    never raises, and falls off the end, returning [None], after an
    exception. *)
Definition discord_asr (samples : V) : pyval * list event :=
  match transcribe samples with
  | Returns detected_text => (detected_text, [EvTranscribe samples])
  | Raises => (PyNone, [EvTranscribe samples; EvLogError])
  end.

Definition process_detected_audio_discord (input_sample : dict)
  : outcome (option heard) :=
  match getitem input_sample "data" with
  | None => Raised (KeyError "data") []
  | Some voice_speech_data =>
      match predict voice_speech_data with
      | None => Raised PredictError [EvPredict voice_speech_data]
      | Some detected_gender =>
          let (detected_text, tr) := discord_asr voice_speech_data in
          if truthy detected_text
          then
            match getitem input_sample "name" with
            | None => Raised (KeyError "name") (EvPredict voice_speech_data :: tr)
            | Some speaker =>
                Returned (Some {| name := speaker;
                                  content := detected_text;
                                  gender := detected_gender;
                                  type := "audio";
                                  audio_data := voice_speech_data |})
                         (EvPredict voice_speech_data :: tr)
            end
          else Returned None (EvPredict voice_speech_data :: tr)
      end
  end.

End WithCollaborators.

Arguments getitem {V}.
Arguments EvPredict {V}.
Arguments EvTranscribe {V}.
Arguments EvLogError {V}.
Arguments Returned {V A}.
Arguments Raised {V A}.
Arguments Build_heard {V G}.
Arguments name {V G}.
Arguments content {V G}.
Arguments gender {V G}.
Arguments type {V G}.
Arguments audio_data {V G}.
Arguments discord_asr {V}.
Arguments process_detected_audio_discord {V G}.

End Discord.

(** A Discord message as the examples use it: strings for every value. *)
Definition discord_message : Discord.dict string :=
  [("name", "alice"); ("data", "pcm")]%string.


(** ** [utils/ActionSelectionQueue.py]

    The worker loop of [ActionSelectionQueue].  [self.queue] is a
    [queue.Queue()] without a size: [put] appends and never blocks, [get]
    takes the head.  The objects the loop talks to are not part of the
    class; what each of them answers during an iteration is an argument
    ([None] when the call raises).  Results of actions and formatted
    prompts are values of one type [R], as both go to the inference
    queue. *)

Module ActionSelection.

Section WithTypes.

Variable R : Type.    (* results of actions and prompts *)
Variable I : Type.    (* what the input queue delivers *)
Variable SP : Type.   (* system prompts *)
Variable B : Type.    (* behaviours *)

(** An [ActionInterface] object as the loop sees it. *)
Record action : Type := {
  class_name : string;
  requires_input : bool;
  not_is_blocking_action : bool;
  start_action : option R
}.

(** What the collaborators answer. *)
Record collaborators : Type := {
  (* self.default_behavior.select_action(state=EmotionHandler().get_current_state()) *)
  select_action : option action;
  (* InputQueue().get_input() *)
  get_input : option I;
  (* OpenLLMVTuberMain().get_system_prompt() *)
  get_system_prompt : option SP;
  (* self.default_behavior.choose_behavior() *)
  choose_behavior : option B;
  (* PromptFormatter().format_for_ollama(system_prompt, result, behavior, input) *)
  format_for_ollama : SP -> R -> B -> I -> option R;
  (* self.thread.join(), reached while paused *)
  thread_join : option unit
}.

Record state : Type := {
  queue : list action;
  stop_event : bool;
  pause_event : bool
}.

Definition with_queue (q : list action) (st : state) : state :=
  {| queue := q; stop_event := stop_event st; pause_event := pause_event st |}.

Inductive event : Type :=
| EvPaused                        (* "Action selection paused." *)
| EvQueueEmpty                    (* "Queue is empty. Executing default action." *)
| EvAdded (cls : string)          (* "Action ... added to the queue." *)
| EvFetched (cls : string)        (* "Action ... fetched from the queue." *)
| EvInputError                    (* "Error fetching input: ..." *)
| EvNotBlockingSet                (* OpenLLMVTuberMain().not_is_blocking_event.set() *)
| EvProcessing (cls : string)     (* "Processing action: ..." *)
| EvResult (result : R)           (* "Action result: ..." *)
| EvAddPrompt (result : R).       (* InferenceQueue().add_prompt(result) *)

(** One pass through the body of [while not self.stop_event.is_set()]. *)
Inductive step : Type :=
| Continue (st : state) (tr : list event)   (* back to the loop test *)
| Finished (st : state) (tr : list event)   (* the loop test failed *)
| Dies (st : state) (tr : list event).      (* an exception left [run] *)

Definition __init__ : state :=
  {| queue := []; stop_event := false; pause_event := false |}.

Definition add_action (a : action) (st : state) : state * list event :=
  (with_queue (queue st ++ [a]) st, [EvAdded (class_name a)]).

(** [None]: the queue is empty and [get] blocks. *)
Definition get_action (st : state) : option (action * state * list event) :=
  match queue st with
  | [] => None
  | a :: rest => Some (a, with_queue rest st, [EvFetched (class_name a)])
  end.

Definition pause_action (st : state) : state :=
  {| queue := queue st; stop_event := stop_event st; pause_event := true |}.

Definition resume_action (st : state) : state :=
  {| queue := queue st; stop_event := stop_event st; pause_event := false |}.

(** The body of the [try]: any failure is caught by [except Exception]. *)
Definition fetch_and_format (env : collaborators) (a : action) : option R :=
  match get_input env with
  | None => None
  | Some current_input =>
      match get_system_prompt env with
      | None => None
      | Some prompt =>
          match start_action a with
          | None => None
          | Some started =>
              match choose_behavior env with
              | None => None
              | Some behavior =>
                  format_for_ollama env prompt started behavior current_input
              end
          end
      end
  end.

Definition run_iteration (env : collaborators) (st : state) : step :=
  if stop_event st then Finished st []
  else if pause_event st then
    match thread_join env with
    | None => Dies st [EvPaused]
    | Some _ => Continue st [EvPaused]
    end
  else
    match get_action st with
    | None =>
        (* self.queue.empty() *)
        match select_action env with
        | None => Dies st [EvQueueEmpty]
        | Some selected_action =>
            let (st', tr) := add_action selected_action st in
            Continue st' (EvQueueEmpty :: tr)
        end
    | Some (a, st', tr) =>
        if requires_input a
        then
          match fetch_and_format env a with
          | None => Continue st' (tr ++ [EvInputError])
          | Some result =>
              Continue st'
                (tr
                 ++ (if not_is_blocking_action a then [EvNotBlockingSet] else [])
                 ++ [EvProcessing (class_name a); EvResult result;
                     EvAddPrompt result])
          end
        else
          match start_action a with
          | None => Dies st' tr
          | Some result =>
              Continue st'
                (tr ++ [EvProcessing (class_name a); EvResult result;
                        EvAddPrompt result])
          end
    end.

(** The first [n] passes of [run]. *)
Fixpoint run (n : nat) (env : collaborators) (st : state) : step :=
  match n with
  | O => Continue st []
  | S m =>
      match run_iteration env st with
      | Continue st' tr =>
          match run m env st' with
          | Continue st'' tr' => Continue st'' (tr ++ tr')
          | Finished st'' tr' => Finished st'' (tr ++ tr')
          | Dies st'' tr' => Dies st'' (tr ++ tr')
          end
      | Finished st' tr => Finished st' tr
      | Dies st' tr => Dies st' tr
      end
  end.

Definition state_of (s : step) : state :=
  match s with
  | Continue st _ | Finished st _ | Dies st _ => st
  end.

Definition trace_of (s : step) : list event :=
  match s with
  | Continue _ tr | Finished _ tr | Dies _ tr => tr
  end.

(** The results handed to the inference queue, oldest first. *)
Fixpoint prompts (tr : list event) : list R :=
  match tr with
  | [] => []
  | EvAddPrompt result :: rest => result :: prompts rest
  | _ :: rest => prompts rest
  end.

(** The actions taken from the queue, by class name, oldest first. *)
Fixpoint fetched (tr : list event) : list string :=
  match tr with
  | [] => []
  | EvFetched cls :: rest => cls :: fetched rest
  | _ :: rest => fetched rest
  end.

(** What one action contributes to the inference queue: its result, or
    nothing when the preparation of an action that requires input fails. *)
Definition delivered (env : collaborators) (a : action) : list R :=
  match (if requires_input a then fetch_and_format env a else start_action a) with
  | Some result => [result]
  | None => []
  end.

End WithTypes.

Arguments class_name {R}.
Arguments requires_input {R}.
Arguments not_is_blocking_action {R}.
Arguments start_action {R}.
Arguments Build_action {R}.
Arguments select_action {R I SP B}.
Arguments get_input {R I SP B}.
Arguments get_system_prompt {R I SP B}.
Arguments choose_behavior {R I SP B}.
Arguments format_for_ollama {R I SP B}.
Arguments thread_join {R I SP B}.
Arguments Build_collaborators {R I SP B}.
Arguments queue {R}.
Arguments stop_event {R}.
Arguments pause_event {R}.
Arguments Build_state {R}.
Arguments with_queue {R}.
Arguments EvPaused {R}.
Arguments EvQueueEmpty {R}.
Arguments EvAdded {R}.
Arguments EvFetched {R}.
Arguments EvInputError {R}.
Arguments EvNotBlockingSet {R}.
Arguments EvProcessing {R}.
Arguments EvResult {R}.
Arguments EvAddPrompt {R}.
Arguments Continue {R}.
Arguments Finished {R}.
Arguments Dies {R}.
Arguments __init__ {R}.
Arguments add_action {R}.
Arguments get_action {R}.
Arguments pause_action {R}.
Arguments resume_action {R}.
Arguments fetch_and_format {R I SP B}.
Arguments run_iteration {R I SP B}.
Arguments run {R I SP B}.
Arguments state_of {R}.
Arguments trace_of {R}.
Arguments prompts {R}.
Arguments fetched {R}.
Arguments delivered {R I SP B}.

End ActionSelection.

(** Actions and collaborators for the examples: results, inputs, prompts
    and behaviours are strings. *)
Definition wave : ActionSelection.action string :=
  {| ActionSelection.class_name := "Wave";
     ActionSelection.requires_input := false;
     ActionSelection.not_is_blocking_action := true;
     ActionSelection.start_action := Some "waving"%string |}.

Definition answer : ActionSelection.action string :=
  {| ActionSelection.class_name := "Answer";
     ActionSelection.requires_input := true;
     ActionSelection.not_is_blocking_action := true;
     ActionSelection.start_action := Some "answering"%string |}.

Definition idle_chatter : ActionSelection.action string :=
  {| ActionSelection.class_name := "IdleChatter";
     ActionSelection.requires_input := false;
     ActionSelection.not_is_blocking_action := false;
     ActionSelection.start_action := Some "humming"%string |}.

(** Every collaborator answers; the formatter joins what it is given. *)
Definition helpful : ActionSelection.collaborators string string string string :=
  {| ActionSelection.select_action := Some idle_chatter;
     ActionSelection.get_input := Some "hi"%string;
     ActionSelection.get_system_prompt := Some "system"%string;
     ActionSelection.choose_behavior := Some "calm"%string;
     ActionSelection.format_for_ollama :=
       fun prompt started behavior current_input =>
         Some (String.append prompt
                 (String.append started
                    (String.append behavior current_input)));
     ActionSelection.thread_join := None |}.


Definition worker_with (q : list (ActionSelection.action string))
  : ActionSelection.state string :=
  {| ActionSelection.queue := q;
     ActionSelection.stop_event := false;
     ActionSelection.pause_event := false |}.

(** Collaborators of the Discord path for the examples. *)
Definition discord_hears : string -> reply := fun _ => Returns (PyStr "hello").
Definition discord_predict : string -> option string := fun _ => Some "female"%string.

(** * Properties *)

(** Unfolds the monadic plumbing and the methods, and nothing of the
    arithmetic. *)
Ltac run_engine :=
  cbv beta iota zeta delta
    [_handle_audio_sample _manage_pre_activation_buffer _process_activated_audio
     process_detected_audio asr reset identify_speaker logger_info
     input_stream_start input_stream_stop buffer_get buffer_put
     bind ret self update emit raise block after
     Queue.full Queue.get Queue.put Queue.clear Queue.qsize Queue.create
     Queue.maxsize Queue.queue
     with_samples with_buffer with_recording_started with_gap_counter
     with_input_stream samples buffer recording_started gap_counter
     input_stream negb andb
     idle_step inserted appended paused finalize_trace heard_text floordiv].

Section Steps.

Context {sample : Type}.
Variable cfg : config.
Variable transcribe : list sample -> reply.

Implicit Types (st : engine sample) (f : frame sample) (a : bool).

Lemma handle_idle st f a :
  recording_started st = false ->
  ((0 < Queue.maxsize (buffer st))%Z ->
   (Z.of_nat (Queue.qsize (buffer st)) <= Queue.maxsize (buffer st))%Z) ->
  _handle_audio_sample cfg transcribe f a st = Ok None (idle_step f a st) [].
Proof.
  intros Hrec Hb.
  destruct st as [acc [m q] r g s]. simpl in Hrec. subst r.
  unfold Queue.qsize in Hb; simpl in Hb.
  run_engine.
  destruct (0 <? m)%Z eqn:Hm.
  - pose proof Hm as Hm'. apply Z.ltb_lt in Hm'. specialize (Hb Hm').
    destruct (m <=? Z.of_nat (List.length q))%Z eqn:Hfull.
    + apply Z.leb_le in Hfull.
      destruct q as [|x q]; cbn [List.length] in Hfull, Hb; [lia|].
      run_engine. rewrite Hm.
      replace (m <=? Z.of_nat (List.length q))%Z with false
        by (symmetry; apply Z.leb_gt; lia).
      run_engine. destruct a; reflexivity.
    + run_engine. rewrite Hm, Hfull. run_engine. destruct a; reflexivity.
  - run_engine. rewrite Hm. run_engine. destruct a; reflexivity.
Qed.

Lemma handle_recording_active st f :
  recording_started st = true ->
  _handle_audio_sample cfg transcribe f true st
  = Ok None (with_gap_counter 0%Z (appended f st)) [].
Proof.
  intros Hrec. destruct st as [acc q r g s]. simpl in Hrec. subst r.
  reflexivity.
Qed.

Lemma handle_recording_below st f :
  recording_started st = true ->
  VAD_SIZE cfg <> 0%Z ->
  (gap_counter st + 1 < threshold cfg)%Z ->
  _handle_audio_sample cfg transcribe f false st = Ok None (paused f st) [].
Proof.
  intros Hrec Hv Hg. destruct st as [acc q r g s]. simpl in Hrec, Hg. subst r.
  unfold threshold in Hg. run_engine.
  apply Z.eqb_neq in Hv. rewrite Hv.
  replace (PAUSE_LIMIT cfg / VAD_SIZE cfg <=? g + 1)%Z with false
    by (symmetry; apply Z.leb_gt; lia).
  reflexivity.
Qed.

Lemma handle_recording_finalize st f :
  recording_started st = true ->
  VAD_SIZE cfg <> 0%Z ->
  (threshold cfg <= gap_counter st + 1)%Z ->
  _handle_audio_sample cfg transcribe f false st = finalized transcribe f st.
Proof.
  intros Hrec Hv Hg. destruct st as [acc q r g s]. simpl in Hrec, Hg. subst r.
  unfold threshold in Hg. unfold finalized. run_engine.
  apply Z.eqb_neq in Hv. rewrite Hv.
  replace (PAUSE_LIMIT cfg / VAD_SIZE cfg <=? g + 1)%Z with true
    by (symmetry; apply Z.leb_le; lia).
  destruct (acc ++ [f]) as [|x l] eqn:Hacc.
  - destruct acc; discriminate.
  - run_engine. destruct (transcribe (List.concat (x :: l))) as [|text].
    + reflexivity.
    + destruct (truthy text); reflexivity.
Qed.

Lemma reset_eq st :
  reset st
  = Ok tt {| samples := [];
             buffer := Queue.mk (Queue.maxsize (buffer st)) [];
             recording_started := false;
             gap_counter := 0%Z;
             input_stream := input_stream st |}
       [EvLog "Resetting recorder..."].
Proof. destruct st as [acc [m q] r g s]. reflexivity. Qed.

(** Whatever a call made while recording returns or raises, it has
    appended the frame and updated the counter, and left the buffer and
    the recording flag alone. *)
Lemma handle_recording_state st f a :
  recording_started st = true ->
  let st' := state_of (_handle_audio_sample cfg transcribe f a st) in
  samples st' = samples st ++ [f] /\
  buffer st' = buffer st /\
  recording_started st' = true /\
  gap_counter st' = (if a then 0 else gap_counter st + 1)%Z.
Proof.
  intros Hrec. destruct st as [acc q r g s]. simpl in Hrec. subst r.
  destruct a; [cbn; auto|].
  run_engine.
  destruct (VAD_SIZE cfg =? 0)%Z; [cbn; auto|].
  destruct (PAUSE_LIMIT cfg / VAD_SIZE cfg <=? g + 1)%Z; [|cbn; auto].
  destruct (acc ++ [f]) as [|x l]; [cbn; auto|].
  run_engine.
  destruct (transcribe (List.concat (x :: l))) as [|text]; [cbn; auto|].
  destruct (truthy text); cbn; auto.
Qed.

Lemma inserted_length (q : Queue.t (frame sample)) f :
  ((0 < Queue.maxsize q)%Z ->
   (Z.of_nat (Queue.qsize q) <= Queue.maxsize q)%Z) ->
  (0 < Queue.maxsize q)%Z ->
  (Z.of_nat (List.length (inserted q f)) <= Queue.maxsize q)%Z.
Proof.
  intros Hb Hm. specialize (Hb Hm).
  destruct q as [m q]. unfold inserted, Queue.full, Queue.qsize in *.
  cbn [Queue.maxsize Queue.queue] in *.
  rewrite length_app. cbn [List.length].
  destruct (0 <? m)%Z eqn:E0; [|apply Z.ltb_ge in E0; lia].
  destruct (m <=? Z.of_nat (List.length q))%Z eqn:E1; cbn [andb].
  - destruct q; cbn [tl List.length] in *; lia.
  - apply Z.leb_gt in E1. lia.
Qed.

Lemma handle_preserves_inv st f a :
  inv cfg st -> inv cfg (state_of (_handle_audio_sample cfg transcribe f a st)).
Proof.
  intros (Hm & Hb & Hg).
  destruct (recording_started st) eqn:Hrec.
  - destruct (handle_recording_state st f a Hrec) as (_ & Hbuf & Hr & _).
    unfold inv. rewrite Hbuf, Hr. repeat split; auto. discriminate.
  - rewrite handle_idle by (auto; rewrite Hm; auto).
    cbn [state_of]. unfold inv, idle_step.
    pose proof (inserted_length (buffer st) f) as Hlen.
    rewrite Hm in Hlen.
    destruct a; cbn; unfold Queue.qsize; cbn; repeat split; auto;
      discriminate.
Qed.

Lemma reset_preserves_inv st : inv cfg st -> inv cfg (state_of (reset st)).
Proof.
  intros (Hm & Hb & Hg). rewrite reset_eq. cbn [state_of].
  unfold inv, Queue.qsize. cbn. repeat split; auto. lia.
Qed.

End Steps.

Lemma init_inv {sample : Type} (cfg : config) (st : engine sample) :
  __init__ cfg = Some st -> VAD_SIZE cfg <> 0%Z /\ is_fresh cfg st.
Proof.
  unfold __init__, floordiv, is_fresh, capacity.
  destruct (VAD_SIZE cfg =? 0)%Z eqn:E; [discriminate|].
  intros [= <-]. apply Z.eqb_neq in E. cbn. auto.
Qed.

Lemma fresh_inv {sample : Type} (cfg : config) (st : engine sample) :
  is_fresh cfg st -> inv cfg st.
Proof.
  intros (Hr & Hs & Hg & Hb). unfold inv, Queue.qsize. rewrite Hb. cbn.
  repeat split; auto. lia.
Qed.

Lemma reachable_inv {sample : Type} (cfg : config) (st : engine sample) :
  reachable cfg st -> inv cfg st.
Proof.
  induction 1 as [st Hinit | tr f a st _ IH | st _ IH | b st _ IH].
  - apply fresh_inv. apply (init_inv cfg st Hinit).
  - apply handle_preserves_inv, IH.
  - apply reset_preserves_inv, IH.
  - exact IH.
Qed.

Lemma reachable_vad {sample : Type} (cfg : config) (st : engine sample) :
  reachable cfg st -> VAD_SIZE cfg <> 0%Z.
Proof.
  induction 1 as [st Hinit | | | ]; auto. apply (init_inv cfg st Hinit).
Qed.

Section Listening.

Context {sample : Type}.
Variable cfg : config.
Variable transcribe : list sample -> reply.

Implicit Types (st : engine sample) (f : frame sample) (a : bool).

(** Every call from a state satisfying the invariant is of one of two
    kinds: a silent step, or a pass through [process_detected_audio]. *)
Lemma handle_cases st f a :
  inv cfg st -> VAD_SIZE cfg <> 0%Z ->
  (exists st1,
      _handle_audio_sample cfg transcribe f a st = Ok None st1 [] /\
      (recording_started st = true ->
       a = true \/ (gap_counter st + 1 < threshold cfg)%Z)) \/
  (recording_started st = true /\ a = false /\
   (threshold cfg <= gap_counter st + 1)%Z /\
   _handle_audio_sample cfg transcribe f a st = finalized transcribe f st).
Proof.
  intros (Hm & Hb & Hg) Hv.
  destruct (recording_started st) eqn:Hrec.
  - destruct a.
    + left. eexists. split; [apply handle_recording_active; auto | auto].
    + destruct (Z_lt_le_dec (gap_counter st + 1) (threshold cfg)) as [Hlt|Hle].
      * left. eexists. split; [apply handle_recording_below; auto | auto].
      * right. repeat split; auto. apply handle_recording_finalize; auto.
  - left. eexists. split; [apply handle_idle; auto; rewrite Hm; auto | discriminate].
Qed.

Lemma after_nil {A : Type} (o : outcome sample A) : after [] o = o.
Proof. destruct o; reflexivity. Qed.

Lemma after_ok {A : Type} (tr : list (event sample)) (o : outcome sample A)
      x st' tr2 :
  after tr o = Ok x st' tr2 -> exists tr', o = Ok x st' tr' /\ tr2 = tr ++ tr'.
Proof.
  destruct o; cbn; intros H; inversion H; subst. eauto.
Qed.

Lemma feed_app (l1 l2 : list (frame sample * bool)) st :
  feed cfg transcribe (l1 ++ l2) st
  = feed cfg transcribe l2 (feed cfg transcribe l1 st).
Proof.
  revert st. induction l1 as [|[f a] l1 IH]; intros st; cbn; auto.
Qed.

Lemma feed_inv (l : list (frame sample * bool)) st :
  inv cfg st -> inv cfg (feed cfg transcribe l st).
Proof.
  revert st. induction l as [|[f a] l IH]; intros st Hinv; cbn; auto.
  apply IH, handle_preserves_inv, Hinv.
Qed.

Lemma feed_reachable (l : list (frame sample * bool)) st :
  reachable cfg st -> reachable cfg (feed cfg transcribe l st).
Proof.
  revert st. induction l as [|[f a] l IH]; intros st Hr; cbn; auto.
  apply IH, reach_handle, Hr.
Qed.

(** What the listening loop has done when it returns: it consumed a
    prefix of the queue, the last frame of which finalized with a truthy
    transcription of the whole accumulator; nothing was reset on the way. *)
Lemma listen_result (q : list (frame sample * bool)) :
  forall st r rest st' tr,
    inv cfg st -> VAD_SIZE cfg <> 0%Z ->
    _listen_and_respond cfg transcribe q st = Ok (r, rest) st' tr ->
    exists consumed f pre text,
      q = consumed ++ (f, false) :: rest /\
      st' = with_input_stream false
              (paused f (feed cfg transcribe consumed st)) /\
      recording_started (feed cfg transcribe consumed st) = true /\
      tr = pre ++ finalize_trace (samples st') /\
      existsb is_reset_log pre = false /\
      transcribe (List.concat (samples st')) = Returns text /\
      truthy text = true /\
      r = heard_text text.
Proof.
  induction q as [|[f a] q IH]; intros st r rest st' tr Hinv Hv Hrun.
  - discriminate.
  - cbn [_listen_and_respond] in Hrun. unfold bind at 1 in Hrun.
    pose proof (handle_preserves_inv cfg transcribe st f a Hinv) as Hinv1.
    destruct (handle_cases st f a Hinv Hv) as [(st1 & Hstep & _) | (Hrec & -> & Hg & Hstep)].
    + rewrite Hstep in Hrun, Hinv1. cbn [state_of] in Hinv1.
      rewrite after_nil in Hrun.
      destruct (IH _ _ _ _ _ Hinv1 Hv Hrun)
        as (consumed & f' & pre & text & -> & Hst & Hr & Htr & Hpre & Htx & Htt & Hres).
      exists ((f, a) :: consumed), f', pre, text.
      cbn [feed app]. rewrite Hstep. cbn [state_of]. auto 10.
    + rewrite Hstep in Hrun, Hinv1. unfold finalized in Hrun, Hinv1.
      destruct (transcribe (List.concat (samples st ++ [f]))) as [|text] eqn:Htx;
        [discriminate|].
      cbn [state_of] in Hinv1.
      destruct (truthy text) eqn:Htt.
      * cbn in Hrun. inversion Hrun; subst.
        exists [], f, [], text. cbn [feed app]. repeat split; auto.
      * apply after_ok in Hrun. destruct Hrun as (tr' & Hrun & ->).
        destruct (IH _ _ _ _ _ Hinv1 Hv Hrun)
          as (consumed & f' & pre & text' & -> & Hst & Hr & Htr & Hpre & Htx' & Htt' & Hres).
        exists ((f, false) :: consumed), f',
          (finalize_trace (samples st ++ [f]) ++ pre), text'.
        cbn [feed app]. rewrite Hstep. unfold finalized. rewrite Htx, Htt.
        cbn [state_of]. rewrite existsb_app, Hpre, <- app_assoc, Htr.
        repeat split; auto.
Qed.

End Listening.

Section Buffering.

Context {sample : Type}.
Variable cfg : config.
Variable transcribe : list sample -> reply.

Implicit Types (st : engine sample) (f : frame sample) (a : bool).

Lemma keep_last_short {A : Type} (n : nat) (l : list A) :
  List.length l <= n -> keep_last n l = l.
Proof.
  intros H. unfold keep_last.
  replace (List.length l - n) with 0 by lia. reflexivity.
Qed.

Lemma keep_last_length {A : Type} (n : nat) (l : list A) :
  List.length (keep_last n l) = Nat.min n (List.length l).
Proof. unfold keep_last. rewrite length_skipn. lia. Qed.

Lemma keep_last_app {A : Type} (n : nat) (l l' : list A) :
  keep_last n (keep_last n l ++ l') = keep_last n (l ++ l').
Proof.
  destruct (Nat.le_gt_cases (List.length l) n) as [Hle|Hgt].
  - rewrite (keep_last_short n l Hle). reflexivity.
  - unfold keep_last at 1 3. rewrite !length_app, keep_last_length.
    unfold keep_last.
    replace (List.length l + List.length l' - n)
      with (List.length l' + (List.length l - n)) by lia.
    rewrite <- skipn_skipn.
    rewrite (skipn_app (List.length l - n) l l').
    replace (List.length l - n - List.length l) with 0 by lia.
    rewrite skipn_0.
    replace (Nat.min n (List.length l) + List.length l' - n)
      with (List.length l') by lia.
    reflexivity.
Qed.

Lemma retained_app {A : Type} (m : Z) (l l' : list A) :
  retained m (retained m l ++ l') = retained m (l ++ l').
Proof.
  unfold retained. destruct (0 <? m)%Z; auto using keep_last_app.
Qed.

Lemma retained_short {A : Type} (m : Z) (l : list A) :
  ((0 < m)%Z -> (Z.of_nat (List.length l) <= m)%Z) -> retained m l = l.
Proof.
  intros H. unfold retained. destruct (0 <? m)%Z eqn:E; auto.
  apply Z.ltb_lt in E. apply keep_last_short. specialize (H E). lia.
Qed.

Lemma inserted_retained (q : Queue.t (frame sample)) f :
  ((0 < Queue.maxsize q)%Z ->
   (Z.of_nat (Queue.qsize q) <= Queue.maxsize q)%Z) ->
  inserted q f = retained (Queue.maxsize q) (Queue.queue q ++ [f]).
Proof.
  destruct q as [m q]. unfold inserted, retained, Queue.full, Queue.qsize.
  cbn [Queue.maxsize Queue.queue]. intros Hb.
  destruct (0 <? m)%Z eqn:E0; cbn [andb]; auto.
  apply Z.ltb_lt in E0. specialize (Hb E0).
  destruct (m <=? Z.of_nat (List.length q))%Z eqn:E1.
  - apply Z.leb_le in E1. unfold keep_last. rewrite length_app. cbn [List.length].
    replace (List.length q + 1 - Z.to_nat m) with 1 by lia.
    destruct q; cbn [List.length] in *; [lia | reflexivity].
  - apply Z.leb_gt in E1. rewrite keep_last_short; auto.
    rewrite length_app. cbn [List.length]. lia.
Qed.

(** Inactive frames submitted while idle only move the buffer. *)
Lemma feed_inactive_idle (fs : list (frame sample)) st :
  recording_started st = false -> inv cfg st ->
  feed cfg transcribe (inactive fs) st
  = with_buffer (Queue.mk (capacity cfg)
                   (retained (capacity cfg) (Queue.queue (buffer st) ++ fs))) st.
Proof.
  revert st. induction fs as [|f fs IH]; intros st Hrec Hinv.
  - destruct Hinv as (Hm & Hb & _). cbn [inactive map feed].
    rewrite app_nil_r, retained_short by exact Hb.
    destruct st as [acc [m q] r g s]. cbn in *. subst m. reflexivity.
  - cbn [inactive map feed]. fold (inactive fs).
    pose proof (handle_preserves_inv cfg transcribe st f false Hinv) as Hinv1.
    destruct Hinv as (Hm & Hb & _).
    rewrite handle_idle in * by (auto; rewrite Hm; auto).
    cbn [state_of] in *. rewrite IH by auto.
    unfold idle_step. cbn.
    rewrite inserted_retained by (rewrite Hm; auto).
    rewrite Hm, retained_app, <- app_assoc. reflexivity.
Qed.

(** The frame that activates takes its place in the buffer and the
    accumulator starts as a copy of the buffer. *)
Lemma feed_activation (fs : list (frame sample)) f st :
  recording_started st = false -> inv cfg st ->
  let st' := feed cfg transcribe (inactive fs ++ [(f, true)]) st in
  recording_started st' = true /\
  samples st' = retained (capacity cfg) (Queue.queue (buffer st) ++ fs ++ [f]) /\
  Queue.queue (buffer st') = samples st' /\
  gap_counter st' = 0%Z.
Proof.
  intros Hrec Hinv st'. subst st'.
  rewrite feed_app, feed_inactive_idle by auto.
  pose proof (feed_inv cfg transcribe (inactive fs) st Hinv) as Hinv1.
  rewrite feed_inactive_idle in Hinv1 by auto.
  cbn [feed].
  set (st1 := with_buffer _ st) in *.
  destruct Hinv1 as (Hm1 & Hb1 & _).
  rewrite handle_idle by (auto; rewrite Hm1; auto).
  cbn [state_of]. unfold idle_step.
  rewrite inserted_retained by (rewrite Hm1; auto).
  subst st1. cbn. rewrite retained_app, <- app_assoc.
  destruct Hinv as (_ & _ & Hg). auto.
Qed.

End Buffering.

Lemma fresh_engine_reachable (cfg : config) :
  VAD_SIZE cfg <> 0%Z -> reachable cfg (fresh_engine cfg).
Proof.
  intros Hv. apply reach_init. unfold __init__, floordiv, fresh_engine, capacity.
  apply Z.eqb_neq in Hv. rewrite Hv. reflexivity.
Qed.

Lemma fresh_engine_fresh (cfg : config) : is_fresh cfg (fresh_engine cfg).
Proof. repeat split. Qed.

Section Recording.

Context {sample : Type}.
Variable cfg : config.
Variable transcribe : list sample -> reply.

Implicit Types (st : engine sample) (f : frame sample) (a : bool).

Lemma consecutive_inactive_snoc (l : list (frame sample * bool)) f a :
  consecutive_inactive (l ++ [(f, a)])
  = if a then 0 else S (consecutive_inactive l).
Proof.
  unfold consecutive_inactive. rewrite rev_app_distr. cbn.
  destruct a; reflexivity.
Qed.

(** While recording, the accumulator grows by every frame and the gap
    counter is the number of inactive frames since the last active one. *)
Lemma feed_recording st :
  recording_started st = true -> gap_counter st = 0%Z ->
  forall l : list (frame sample * bool),
    let st' := feed cfg transcribe l st in
    recording_started st' = true /\
    samples st' = samples st ++ map fst l /\
    buffer st' = buffer st /\
    gap_counter st' = Z.of_nat (consecutive_inactive l).
Proof.
  intros Hrec Hgap l. induction l as [|[f a] l IH] using rev_ind.
  - cbn. rewrite app_nil_r. auto.
  - cbn zeta in *. destruct IH as (Hr & Hs & Hb & Hg).
    rewrite feed_app. cbn [feed].
    destruct (handle_recording_state cfg transcribe _ f a Hr)
      as (Hs' & Hb' & Hr' & Hg').
    rewrite Hs', Hb', Hr', Hg', Hs, Hb, Hg, consecutive_inactive_snoc.
    rewrite map_app, app_assoc. cbn [map fst].
    repeat split; auto. destruct a; lia.
Qed.

Lemma start_listening_result (q : list (frame sample * bool)) st r rest st' tr :
  inv cfg st -> VAD_SIZE cfg <> 0%Z ->
  start_listening cfg transcribe q st = Ok (r, rest) st' tr ->
  is_reset st' /\
  exists pre audio,
    tr = pre ++ [EvTranscribe audio; EvLog "Resetting recorder..."] /\
    existsb is_reset_log pre = false.
Proof.
  intros Hinv Hv Hrun.
  unfold start_listening in Hrun. unfold bind at 1 in Hrun.
  change (input_stream_start st)
    with (Ok tt (with_input_stream true st) [@EvStreamStart sample]) in Hrun.
  apply after_ok in Hrun. destruct Hrun as (tr1 & Hrun & ->).
  unfold bind at 1 in Hrun.
  destruct (_listen_and_respond cfg transcribe q (with_input_stream true st))
    as [[r2 rest2] st2 tr2| |] eqn:Hl; try discriminate.
  apply after_ok in Hrun. destruct Hrun as (tr3 & Hrun & ->).
  unfold bind at 1 in Hrun. rewrite reset_eq in Hrun. cbn in Hrun.
  inversion Hrun; subst.
  destruct (listen_result cfg transcribe q (with_input_stream true st) _ _ _ _
              Hinv Hv Hl)
    as (consumed & f & pre & text & _ & _ & _ & Htr & Hpre & _).
  split; [repeat split|].
  exists (EvStreamStart :: pre ++
          [EvLog "Detected pause after speech. Processing...";
           EvLog "Stopping listening..."; EvStreamStop]),
    (List.concat (samples st2)).
  split.
  - rewrite Htr. unfold finalize_trace. cbn [app].
    rewrite <- !app_assoc. reflexivity.
  - cbn [existsb is_reset_log orb]. rewrite existsb_app, Hpre. reflexivity.
Qed.

End Recording.

Section Claims.

Context {sample : Type}.
Variable cfg : config.
Variable transcribe : list sample -> reply.

Implicit Types (st : engine sample) (f : frame sample) (a : bool).

(** C6. An active frame submitted while recording, whatever the gap
    counter is, returns nothing, appends the frame behind the frames
    already accumulated and sets the gap counter to 0; nothing is
    finalized and the buffer is untouched. *)
Theorem active_frame_resets_gap st f :
  recording_started st = true ->
  let o := _handle_audio_sample cfg transcribe f true st in
  o = Ok None (state_of o) [] /\
  samples (state_of o) = samples st ++ [f] /\
  gap_counter (state_of o) = 0%Z /\
  recording_started (state_of o) = true /\
  buffer (state_of o) = buffer st.
Proof.
  intros Hrec o. subst o. rewrite handle_recording_active by exact Hrec.
  cbn. auto.
Qed.

(** C7. An active frame submitted while idle is first inserted into the
    pre-activation buffer (dropping the oldest frame of a full buffer);
    the accumulator then becomes a copy of the buffer, oldest first, with
    the triggering frame once, as its last element; the engine is
    recording and the gap counter is 0.  Nothing is returned. *)
Theorem activation_snapshots_buffer st f :
  reachable cfg st ->
  recording_started st = false ->
  let o := _handle_audio_sample cfg transcribe f true st in
  let older := if Queue.full (buffer st)
               then tl (Queue.queue (buffer st))
               else Queue.queue (buffer st) in
  o = Ok None (state_of o) [] /\
  Queue.queue (buffer (state_of o)) = older ++ [f] /\
  samples (state_of o) = older ++ [f] /\
  recording_started (state_of o) = true /\
  gap_counter (state_of o) = 0%Z.
Proof.
  intros Hreach Hrec o older. subst o older.
  destruct (reachable_inv cfg st Hreach) as (Hm & Hb & Hg).
  rewrite handle_idle by (auto; rewrite Hm; auto).
  cbn. unfold inserted. repeat split; auto.
Qed.

(** C9. [reset], from any state at all, returns nothing, leaves the engine
    idle with an empty accumulator, a zero gap counter and an empty
    buffer, emits only its log line, and a second [reset] changes
    nothing. *)
Theorem reset_always_idle st :
  let o := reset st in
  o = Ok tt (state_of o) [EvLog "Resetting recorder..."] /\
  is_reset (state_of o) /\
  finalizes o = false /\
  state_of (reset (state_of o)) = state_of o.
Proof.
  cbn zeta. rewrite !reset_eq. cbn. unfold is_reset. cbn. repeat split.
Qed.

(** C10. When a finalizing call gets a falsy transcription, it returns
    nothing; the engine is still recording with every accumulated frame
    kept, nothing was reset, and the listening loop goes on with the next
    queued frame. *)
Theorem falsy_transcription_keeps_recording st f text rest :
  VAD_SIZE cfg <> 0%Z ->
  recording_started st = true ->
  (threshold cfg <= gap_counter st + 1)%Z ->
  transcribe (List.concat (samples st ++ [f])) = Returns text ->
  truthy text = false ->
  let o := _handle_audio_sample cfg transcribe f false st in
  o = Ok None (state_of o) (finalize_trace (samples st ++ [f])) /\
  recording_started (state_of o) = true /\
  samples (state_of o) = samples st ++ [f] /\
  gap_counter (state_of o) = (gap_counter st + 1)%Z /\
  buffer (state_of o) = buffer st /\
  existsb is_reset_log (trace_of o) = false /\
  _listen_and_respond cfg transcribe ((f, false) :: rest) st
  = after (trace_of o) (_listen_and_respond cfg transcribe rest (state_of o)).
Proof.
  intros Hv Hrec Hg Htx Htt o.
  assert (Ho : o = Ok None (with_input_stream false (paused f st))
                     (finalize_trace (samples st ++ [f]))).
  { subst o. rewrite handle_recording_finalize by auto.
    unfold finalized. rewrite Htx, Htt. reflexivity. }
  cbn [_listen_and_respond]. unfold bind at 1. fold o. rewrite Ho.
  cbn. repeat split. exact Hrec.
Qed.

(** C1 (amended). A finalizing call of [_handle_audio_sample] does not reset
    the engine: when it returns a result the engine is still recording, the
    accumulator holds every frame including the last one, the gap counter
    and the buffer are as the call left them, and the collaborator was
    called with no reset before it.  The reset is done by [start_listening]
    after the listening loop has returned: the engine it leaves is idle
    with empty accumulator and buffer and a zero gap counter, and the reset
    is logged right after the call of the collaborator, never before. *)
Theorem reset_follows_transcription st :
  reachable cfg st ->
  (forall f a r st' tr,
      _handle_audio_sample cfg transcribe f a st = Ok (Some r) st' tr ->
      recording_started st' = true /\
      samples st' = samples st ++ [f] /\
      gap_counter st' = (gap_counter st + 1)%Z /\
      buffer st' = buffer st /\
      tr = finalize_trace (samples st') /\
      reset_precedes_transcription tr = false) /\
  (forall q r rest st' tr,
      start_listening cfg transcribe q st = Ok (r, rest) st' tr ->
      is_reset st' /\
      exists pre audio,
        tr = pre ++ [EvTranscribe audio; EvLog "Resetting recorder..."] /\
        existsb is_reset_log pre = false).
Proof.
  intros Hreach.
  pose proof (reachable_inv cfg st Hreach) as Hinv.
  pose proof (reachable_vad cfg st Hreach) as Hv.
  split.
  - intros f a r st' tr Hrun.
    destruct (handle_cases cfg transcribe st f a Hinv Hv)
      as [(st1 & Hstep & _) | (Hrec & -> & Hg & Hstep)].
    + rewrite Hstep in Hrun. discriminate.
    + rewrite Hstep in Hrun. unfold finalized in Hrun.
      destruct (transcribe (List.concat (samples st ++ [f]))) as [|text];
        [discriminate|].
      inversion Hrun; subst. cbn. repeat split. exact Hrec.
  - intros q r rest st' tr Hrun.
    exact (start_listening_result cfg transcribe q st r rest st' tr Hinv Hv Hrun).
Qed.

(** C3. After a fresh engine has been activated, a call finalizes exactly
    when its frame is inactive and the number [n] of consecutive inactive
    frames, this one included, has reached [PAUSE_LIMIT // VAD_SIZE]: with
    [n] below the threshold the call returns nothing and calls nobody, and
    with a threshold of zero every inactive frame, so the very first one,
    finalizes. *)
Theorem pause_timeout_exact st0 (pre : list (frame sample)) f
        (body : list (frame sample * bool)) x a :
  VAD_SIZE cfg <> 0%Z ->
  is_fresh cfg st0 ->
  let st := feed cfg transcribe (inactive pre ++ (f, true) :: body) st0 in
  let n := consecutive_inactive (body ++ [(x, a)]) in
  let o := _handle_audio_sample cfg transcribe x a st in
  recording_started st = true /\
  gap_counter (state_of o) = Z.of_nat n /\
  (finalizes o = true <-> a = false /\ (threshold cfg <= Z.of_nat n)%Z) /\
  (finalizes o = true -> o = finalized transcribe x st) /\
  (finalizes o = false -> o = Ok None (state_of o) []) /\
  ((threshold cfg <= 0)%Z -> a = false -> finalizes o = true).
Proof.
  intros Hv Hfresh st n o.
  pose proof (fresh_inv cfg st0 Hfresh) as Hinv0.
  destruct Hfresh as (Hrec0 & _).
  assert (Hst : st = feed cfg transcribe body
                       (feed cfg transcribe (inactive pre ++ [(f, true)]) st0)).
  { subst st. rewrite <- feed_app, <- app_assoc. reflexivity. }
  destruct (feed_activation cfg transcribe pre f st0 Hrec0 Hinv0)
    as (Hrec1 & _ & _ & Hgap1).
  destruct (feed_recording cfg transcribe _ Hrec1 Hgap1 body)
    as (Hrec & _ & _ & Hgap).
  rewrite <- Hst in Hrec, Hgap.
  assert (Hn : n = if a then 0 else S (consecutive_inactive body))
    by apply consecutive_inactive_snoc.
  assert (Hfin : forall y, finalizes (finalized transcribe y st) = true).
  { intros y. unfold finalized.
    destruct (transcribe (List.concat (samples st ++ [y]))); reflexivity. }
  destruct (handle_recording_state cfg transcribe st x a Hrec)
    as (_ & _ & _ & Hgap').
  fold o in Hgap'.
  split; [exact Hrec|]. split; [rewrite Hgap', Hgap, Hn; destruct a; lia|].
  destruct a.
  - assert (Ho : o = Ok None (with_gap_counter 0%Z (appended x st)) [])
      by (apply handle_recording_active; exact Hrec).
    rewrite Ho. cbn. repeat split; try discriminate; auto.
    intros [? _]. discriminate.
  - destruct (Z_lt_le_dec (gap_counter st + 1) (threshold cfg)) as [Hlt|Hle].
    + assert (Ho : o = Ok None (paused x st) [])
        by (apply handle_recording_below; auto).
      rewrite Ho. cbn. repeat split; try discriminate; auto; try lia.
    + assert (Ho : o = finalized transcribe x st)
        by (apply handle_recording_finalize; auto).
      rewrite Ho, Hfin. repeat split; auto; try lia.
Qed.

(** C5. With a positive capacity [C = BUFFER_SIZE // VAD_SIZE], the buffer
    of a reachable engine never holds more than [C] frames; a frame
    submitted while idle to a full buffer pushes out the oldest frame and
    goes to the back; and after [N >= C] inactive frames submitted while idle the
    buffer is exactly the last [C] of them, in arrival order. *)
Theorem idle_buffer_bound st :
  (0 < capacity cfg)%Z ->
  reachable cfg st ->
  (Z.of_nat (Queue.qsize (buffer st)) <= capacity cfg)%Z /\
  (forall f a,
      recording_started st = false ->
      Queue.full (buffer st) = true ->
      Queue.queue (buffer (state_of (_handle_audio_sample cfg transcribe f a st)))
      = tl (Queue.queue (buffer st)) ++ [f]) /\
  (forall fs : list (frame sample),
      recording_started st = false ->
      (capacity cfg <= Z.of_nat (List.length fs))%Z ->
      let st' := feed cfg transcribe (inactive fs) st in
      Queue.queue (buffer st')
      = skipn (List.length fs - Z.to_nat (capacity cfg)) fs /\
      Z.of_nat (Queue.qsize (buffer st')) = capacity cfg).
Proof.
  intros Hcap Hreach.
  pose proof (reachable_inv cfg st Hreach) as Hinv.
  destruct Hinv as (Hm & Hb & Hg).
  split; [auto|]. split.
  - intros f a Hrec Hfull.
    rewrite handle_idle by (auto; rewrite Hm; auto).
    cbn [state_of]. unfold idle_step, inserted. rewrite Hfull.
    destruct a; reflexivity.
  - intros fs Hrec Hlen st'. subst st'.
    rewrite feed_inactive_idle by (unfold inv; auto).
    cbn [buffer with_buffer Queue.queue]. unfold Queue.qsize.
    cbn [Queue.queue].
    unfold retained. replace (0 <? capacity cfg)%Z with true
      by (symmetry; apply Z.ltb_lt; exact Hcap).
    assert (Hk : keep_last (Z.to_nat (capacity cfg)) (Queue.queue (buffer st) ++ fs)
                 = skipn (List.length fs - Z.to_nat (capacity cfg)) fs).
    { unfold keep_last. rewrite length_app, skipn_app.
      rewrite skipn_all2 by lia. cbn [app]. f_equal. lia. }
    rewrite Hk. split; [reflexivity|]. rewrite length_skipn. lia.
Qed.

(** C8 (amended). With [BUFFER_SIZE // VAD_SIZE = 0] the queue is created
    with [maxsize = 0], which makes it unbounded.  A call never blocks and
    raises only when the collaborator does; while idle it returns nothing,
    never evicts and appends the frame to the buffer, so the buffer holds
    every frame submitted since the engine was last idle and empty, and the
    snapshot taken at activation is all of them followed by the triggering
    frame. *)
Theorem zero_capacity_is_unbounded st :
  capacity cfg = 0%Z ->
  reachable cfg st ->
  (forall f a,
      let o := _handle_audio_sample cfg transcribe f a st in
      match o with
      | Ok _ _ _ => True
      | Exn e _ _ => e = TranscribeError /\ recording_started st = true
      | Hang _ _ => False
      end /\
      (recording_started st = false ->
       o = Ok None (state_of o) [] /\
       Queue.queue (buffer (state_of o)) = Queue.queue (buffer st) ++ [f])) /\
  (forall (fs : list (frame sample)) f,
      recording_started st = false ->
      Queue.queue (buffer (feed cfg transcribe (inactive fs) st))
      = Queue.queue (buffer st) ++ fs /\
      samples (feed cfg transcribe (inactive fs ++ [(f, true)]) st)
      = Queue.queue (buffer st) ++ fs ++ [f]).
Proof.
  intros Hcap Hreach.
  pose proof (reachable_inv cfg st Hreach) as Hinv.
  pose proof (reachable_vad cfg st Hreach) as Hv.
  split.
  - intros f a o. split.
    + subst o.
      destruct (handle_cases cfg transcribe st f a Hinv Hv)
        as [(st1 & Hstep & _) | (Hrec & -> & Hg & Hstep)];
        rewrite Hstep; [exact I|].
      unfold finalized.
      destruct (transcribe (List.concat (samples st ++ [f]))); auto.
    + intros Hrec. subst o. destruct Hinv as (Hm & Hb & Hg).
      rewrite handle_idle by (auto; rewrite Hm; auto).
      cbn [state_of]. split; [reflexivity|].
      unfold idle_step, inserted, Queue.full. rewrite Hm, Hcap.
      destruct a; reflexivity.
  - intros fs f Hrec. split.
    + rewrite feed_inactive_idle by auto. cbn. rewrite Hcap. reflexivity.
    + destruct (feed_activation cfg transcribe fs f st Hrec Hinv) as (_ & Hs & _).
      rewrite Hs, Hcap. reflexivity.
Qed.

Lemma activation_consumed (fs : list (frame sample)) :
  forall st f rest consumed x rest',
    recording_started st = false -> inv cfg st ->
    inactive fs ++ (f, true) :: rest = consumed ++ (x, false) :: rest' ->
    recording_started (feed cfg transcribe consumed st) = true ->
    exists body, consumed = inactive fs ++ (f, true) :: body.
Proof.
  induction fs as [|g fs IH]; intros st f rest consumed x rest' Hrec Hinv Heq Hfed.
  - destruct consumed as [|c cs]; cbn in Heq.
    + inversion Heq.
    + inversion Heq; subst. exists cs. reflexivity.
  - destruct consumed as [|c cs]; cbn [app inactive map] in Heq.
    + cbn [feed] in Hfed. congruence.
    + inversion Heq; subst. cbn [feed] in Hfed.
      pose proof (handle_preserves_inv cfg transcribe st g false Hinv) as Hinv1.
      destruct Hinv as (Hm & Hb & _).
      rewrite handle_idle in Hfed, Hinv1 by (auto; rewrite Hm; auto).
      cbn [state_of] in Hfed, Hinv1.
      assert (Hrec1 : recording_started (idle_step g false st) = false)
        by exact Hrec.
      destruct (IH _ _ _ _ _ _ Hrec1 Hinv1 H1 Hfed) as (body & ->).
      exists body. reflexivity.
Qed.

(** C2 (amended). Let [k] inactive frames [f1..fk] and then an active frame
    reach a fresh engine whose buffer has capacity [C > 0].  The triggering
    frame takes one of the [C] places, so the accumulator starts as the
    last [min (k+1) C] of these [k+1] frames, and the first result the
    listening loop returns afterwards was transcribed from an accumulator
    that starts with them: it begins with [f1] when [k < C] and with
    [f(k-C+2)] when [k >= C]. *)
Theorem lookback_at_activation st0 (fs : list (frame sample)) f rest
        r rest' st' tr :
  VAD_SIZE cfg <> 0%Z ->
  (0 < capacity cfg)%Z ->
  is_fresh cfg st0 ->
  _listen_and_respond cfg transcribe (inactive fs ++ (f, true) :: rest) st0
  = Ok (r, rest') st' tr ->
  let k := List.length fs in
  let C := Z.to_nat (capacity cfg) in
  samples (feed cfg transcribe (inactive fs ++ [(f, true)]) st0)
  = skipn (k + 1 - C) (fs ++ [f]) /\
  (exists more, samples st' = skipn (k + 1 - C) (fs ++ [f]) ++ more) /\
  (exists pre, tr = pre ++ finalize_trace (samples st')) /\
  (k < C -> hd_error (samples st') = hd_error (fs ++ [f])) /\
  (C <= k -> hd_error (samples st') = nth_error (fs ++ [f]) (k + 1 - C)) /\
  hd_error (samples st') <> None.
Proof.
  intros Hv Hcap Hfresh Hrun k C.
  pose proof (fresh_inv cfg st0 Hfresh) as Hinv.
  destruct Hfresh as (Hrec0 & _ & _ & Hbuf0).
  destruct (listen_result cfg transcribe _ _ _ _ _ _ Hinv Hv Hrun)
    as (consumed & x & pre & text & Heq & Hst & Hfed & Htr & _).
  destruct (activation_consumed fs st0 f rest consumed x rest' Hrec0 Hinv Heq Hfed)
    as (body & ->).
  destruct (feed_activation cfg transcribe fs f st0 Hrec0 Hinv)
    as (Hrec1 & Hs1 & _ & Hgap1).
  rewrite Hbuf0 in Hs1. cbn [Queue.create Queue.queue app] in Hs1.
  assert (Hret : retained (capacity cfg) (fs ++ [f]) = skipn (k + 1 - C) (fs ++ [f])).
  { unfold retained, keep_last.
    replace (0 <? capacity cfg)%Z with true by (symmetry; apply Z.ltb_lt; exact Hcap).
    rewrite length_app. reflexivity. }
  rewrite Hret in Hs1.
  destruct (feed_recording cfg transcribe _ Hrec1 Hgap1 body) as (_ & Hs2 & _).
  assert (Hs : samples st' = skipn (k + 1 - C) (fs ++ [f]) ++ (map fst body ++ [x])).
  { rewrite Hst. cbn [samples with_input_stream paused with_gap_counter appended
                        with_samples].
    replace (inactive fs ++ (f, true) :: body)
      with ((inactive fs ++ [(f, true)]) ++ body) by (rewrite <- app_assoc; reflexivity).
    rewrite feed_app. cbn zeta in Hs2. rewrite Hs2, Hs1, <- app_assoc. reflexivity. }
  assert (Hhd : hd_error (samples st') = nth_error (fs ++ [f]) (k + 1 - C)).
  { rewrite Hs, <- hd_error_skipn.
    destruct (skipn (k + 1 - C) (fs ++ [f])) as [|y l] eqn:Hsk; [|reflexivity].
    apply (f_equal (@List.length _)) in Hsk.
    rewrite length_skipn, length_app in Hsk. cbn [List.length] in Hsk.
    fold k in Hsk. lia. }
  split; [exact Hs1|]. split; [eauto|]. split; [eauto|].
  split; [|split].
  - intros Hlt. rewrite Hhd. replace (k + 1 - C) with 0 by lia.
    apply nth_error_0.
  - intros _. exact Hhd.
  - rewrite Hhd. apply nth_error_Some. rewrite length_app. cbn [List.length].
    fold k. lia.
Qed.

(** C4 (amended). With [VAD_SIZE = 50], [BUFFER_SIZE = 200] (four frames)
    and [PAUSE_LIMIT = 200] (four frames), a fresh engine given five
    inactive, three active and four inactive frames returns one result, on
    the twelfth frame, transcribed from exactly ten frames: the last three
    frames before activation (frames 3 to 5), the three active frames and
    the four inactive ones.  With the twelfth frame missing the loop waits
    and has called nobody. *)
Theorem scenario_emits_ten_frames st0 f1 f2 f3 f4 f5 f6 f7 f8 f9 f10 f11 f12 text :
  is_fresh scenario_config st0 ->
  transcribe (List.concat [f3; f4; f5; f6; f7; f8; f9; f10; f11; f12])
  = Returns text ->
  truthy text = true ->
  let frames :=
    inactive [f1; f2; f3; f4; f5]
    ++ [(f6, true); (f7, true); (f8, true)]
    ++ inactive [f9; f10; f11; f12] in
  let o := _listen_and_respond scenario_config transcribe frames st0 in
  o = Ok (heard_text text, []) (state_of o)
         (finalize_trace [f3; f4; f5; f6; f7; f8; f9; f10; f11; f12]) /\
  samples (state_of o) = [f3; f4; f5; f6; f7; f8; f9; f10; f11; f12] /\
  List.length (samples (state_of o)) = 10 /\
  trace_of (_listen_and_respond scenario_config transcribe (removelast frames) st0)
  = [].
Proof.
  intros (Hrec & Hs & Hg & Hb) Htx Htt frames o.
  destruct st0 as [acc q r g s]. cbn in Hrec, Hs, Hg, Hb. subst acc q r g.
  destruct text as [|[|c text]]; try discriminate Htt.
  subst o frames. vm_compute in Htx. vm_compute. rewrite Htx.
  repeat split.
Qed.

End Claims.

(** C6 at work: three frames into a recording with two silent frames
    counted. *)
Lemma active_frame_resets_gap_witness :
  let st := feed scenario_config hears_hello
              [(tone 1, true); (tone 2, false); (tone 3, false)]
              (fresh_engine scenario_config) in
  let o := _handle_audio_sample scenario_config hears_hello (tone 4) true st in
  gap_counter st = 2%Z /\
  o = Ok None (state_of o) [] /\
  samples (state_of o) = [tone 1; tone 2; tone 3; tone 4] /\
  gap_counter (state_of o) = 0%Z.
Proof.
  intros st o. split; [reflexivity|].
  destruct (active_frame_resets_gap scenario_config hears_hello st (tone 4)
              eq_refl) as (H1 & H2 & H3 & _).
  split; [exact H1|]. split; [exact H2 | exact H3].
Defined.

(** The constants of the source give a buffer of 12 frames and a pause of
    16 frames. *)
Lemma source_config_frames :
  capacity source_config = 12%Z /\ threshold source_config = 16%Z.
Proof. split; reflexivity. Qed.

Lemma scenario_vad : VAD_SIZE scenario_config <> 0%Z.
Proof. discriminate. Qed.

Lemma zero_buffer_vad : VAD_SIZE zero_buffer_config <> 0%Z.
Proof. discriminate. Qed.

Lemma scenario_before_last_reachable :
  reachable scenario_config scenario_before_last.
Proof.
  apply feed_reachable, fresh_engine_reachable, scenario_vad.
Qed.

Lemma scenario_full_buffer_reachable :
  reachable scenario_config scenario_full_buffer.
Proof.
  apply feed_reachable, fresh_engine_reachable, scenario_vad.
Qed.

(** C1 as stated fails.  The twelfth frame of the scenario finalizes and
    the call returns the transcription, yet the engine is still recording,
    its accumulator holds ten frames, the gap counter is 4, the buffer
    still holds four frames, and no reset was logged before the
    collaborator was called. *)
Lemma finalize_does_not_reset :
  let o := _handle_audio_sample scenario_config hears_hello (tone 12) false
             scenario_before_last in
  o = Ok (Some (heard_text (PyStr "hello"))) (state_of o) (trace_of o) /\
  finalizes o = true /\
  recording_started (state_of o) = true /\
  samples (state_of o)
  = [tone 3; tone 4; tone 5; tone 6; tone 7; tone 8; tone 9; tone 10;
     tone 11; tone 12] /\
  gap_counter (state_of o) = 4%Z /\
  Queue.queue (buffer (state_of o)) = [tone 3; tone 4; tone 5; tone 6] /\
  ~ is_reset (state_of o) /\
  reset_precedes_transcription (trace_of o) = false.
Proof.
  cbv zeta.
  split; [vm_compute; reflexivity|].
  split; [vm_compute; reflexivity|].
  split; [vm_compute; reflexivity|].
  split; [vm_compute; reflexivity|].
  split; [vm_compute; reflexivity|].
  split; [vm_compute; reflexivity|].
  split; [|vm_compute; reflexivity].
  intros (Hrec & _). vm_compute in Hrec. discriminate Hrec.
Qed.

(** C1 (amended) at work on the scenario: [start_listening] returns the
    transcription and leaves a reset engine, the reset being the last
    event, right after the call of the collaborator. *)
Lemma reset_follows_transcription_witness :
  let o := start_listening scenario_config hears_hello scenario
             (fresh_engine scenario_config) in
  reachable scenario_config (fresh_engine scenario_config) /\
  is_reset (state_of o) /\
  exists pre audio,
    trace_of o = pre ++ [EvTranscribe audio; EvLog "Resetting recorder..."] /\
    existsb is_reset_log pre = false.
Proof.
  intros o.
  pose proof (fresh_engine_reachable scenario_config scenario_vad) as Hreach.
  split; [exact Hreach|].
  apply (proj2 (reset_follows_transcription scenario_config hears_hello
                  (fresh_engine scenario_config) Hreach)
               scenario (heard_text (PyStr "hello")) [] (state_of o) (trace_of o)).
  vm_compute. reflexivity.
Defined.

(** C2 as stated fails.  With capacity 4, after exactly four inactive
    frames the utterance begins with the second of them, not the first; and
    after five it begins with the third, not the second. *)
Lemma lookback_loses_one_more_frame :
  (let st' := state_of (_listen_and_respond scenario_config hears_hello
                          (inactive [tone 1; tone 2; tone 3; tone 4]
                           ++ (tone 5, true)
                           :: inactive [tone 6; tone 7; tone 8; tone 9])
                          (fresh_engine scenario_config)) in
   hd_error (samples st') = Some (tone 2) /\
   ~ begins_with_full_lookback 4 [tone 1; tone 2; tone 3; tone 4] (samples st')) /\
  (let st' := state_of (_listen_and_respond scenario_config hears_hello scenario
                          (fresh_engine scenario_config)) in
   hd_error (samples st') = Some (tone 3) /\
   ~ begins_with_full_lookback 4 [tone 1; tone 2; tone 3; tone 4; tone 5]
       (samples st')).
Proof.
  cbv zeta. split; (split; [vm_compute; reflexivity|]).
  - intros (H & _). specialize (H (le_n 4)). vm_compute in H. discriminate H.
  - intros (_ & H). specialize (H (le_n 5)). vm_compute in H. discriminate H.
Qed.

(** C2 (amended) at work on the scenario: five inactive frames, capacity
    four, the result begins with the third frame. *)
Lemma lookback_at_activation_witness :
  let o := _listen_and_respond scenario_config hears_hello scenario
             (fresh_engine scenario_config) in
  o = Ok (heard_text (PyStr "hello"), []) (state_of o) (trace_of o) /\
  hd_error (samples (state_of o)) = Some (tone 3).
Proof.
  intros o.
  assert (Ho : o = Ok (heard_text (PyStr "hello"), []) (state_of o) (trace_of o))
    by (vm_compute; reflexivity).
  split; [exact Ho|].
  assert (Hcap : (0 < capacity scenario_config)%Z) by (vm_compute; reflexivity).
  destruct (lookback_at_activation scenario_config hears_hello
              (fresh_engine scenario_config)
              [tone 1; tone 2; tone 3; tone 4; tone 5] (tone 6)
              ([(tone 7, true); (tone 8, true)]
               ++ inactive [tone 9; tone 10; tone 11; tone 12])
              (heard_text (PyStr "hello")) [] (state_of o) (trace_of o)
              scenario_vad Hcap (fresh_engine_fresh scenario_config) Ho)
    as (_ & _ & _ & _ & Hge & _).
  rewrite Hge; [vm_compute; reflexivity | vm_compute; repeat constructor].
Defined.

(** C3 at work on the scenario (threshold 4): the third consecutive
    inactive frame does not finalize, the fourth does. *)
Lemma pause_timeout_exact_witness :
  let st := feed scenario_config hears_hello (removelast scenario)
              (fresh_engine scenario_config) in
  let o := _handle_audio_sample scenario_config hears_hello (tone 12) false st in
  threshold scenario_config = 4%Z /\
  gap_counter st = 3%Z /\
  finalizes (_handle_audio_sample scenario_config hears_hello (tone 11) false
               (feed scenario_config hears_hello
                  (removelast (removelast scenario))
                  (fresh_engine scenario_config))) = false /\
  finalizes o = true /\
  o = finalized hears_hello (tone 12) st.
Proof.
  intros st o.
  split; [vm_compute; reflexivity|]. split; [vm_compute; reflexivity|].
  split; [vm_compute; reflexivity|].
  destruct (pause_timeout_exact scenario_config hears_hello
              (fresh_engine scenario_config)
              [tone 1; tone 2; tone 3; tone 4; tone 5] (tone 6)
              ([(tone 7, true); (tone 8, true)]
               ++ inactive [tone 9; tone 10; tone 11])
              (tone 12) false
              scenario_vad (fresh_engine_fresh scenario_config))
    as (_ & _ & Hiff & Hfin & _).
  assert (Hf : finalizes o = true).
  { apply Hiff. split; [reflexivity|]. vm_compute. discriminate. }
  split; [exact Hf|]. exact (Hfin Hf).
Defined.

(** C4 as stated fails.  The scenario returns one result on its twelfth
    frame, but it is transcribed from ten frames, not eleven: frame 2 was
    pushed out of the buffer by the activating frame. *)
Lemma scenario_utterance_is_not_eleven_frames :
  let o := _listen_and_respond scenario_config hears_hello scenario
             (fresh_engine scenario_config) in
  o = Ok (heard_text (PyStr "hello"), []) (state_of o) (trace_of o) /\
  samples (state_of o)
  = [tone 3; tone 4; tone 5; tone 6; tone 7; tone 8; tone 9; tone 10;
     tone 11; tone 12] /\
  List.length (samples (state_of o)) <> 11 /\
  samples (state_of o)
  <> [tone 2; tone 3; tone 4; tone 5; tone 6; tone 7; tone 8; tone 9;
      tone 10; tone 11; tone 12].
Proof.
  cbv zeta.
  split; [vm_compute; reflexivity|]. split; [vm_compute; reflexivity|].
  split; vm_compute; discriminate.
Qed.

(** C4 (amended) at work on the scenario. *)
Lemma scenario_emits_ten_frames_witness :
  let o := _listen_and_respond scenario_config hears_hello scenario
             (fresh_engine scenario_config) in
  is_fresh scenario_config (fresh_engine scenario_config) /\
  truthy (PyStr "hello") = true /\
  o = Ok (heard_text (PyStr "hello"), []) (state_of o)
         (finalize_trace [tone 3; tone 4; tone 5; tone 6; tone 7; tone 8;
                          tone 9; tone 10; tone 11; tone 12]) /\
  List.length (samples (state_of o)) = 10.
Proof.
  intros o.
  split; [apply fresh_engine_fresh|]. split; [reflexivity|].
  destruct (scenario_emits_ten_frames hears_hello
              (fresh_engine scenario_config)
              (tone 1) (tone 2) (tone 3) (tone 4) (tone 5) (tone 6)
              (tone 7) (tone 8) (tone 9) (tone 10) (tone 11) (tone 12)
              (PyStr "hello")
              (fresh_engine_fresh scenario_config) eq_refl eq_refl)
    as (H1 & _ & H3 & _).
  split; [exact H1 | exact H3].
Defined.

(** C5 at work with the constants of the source (capacity 12): a full
    buffer takes a thirteenth frame and drops the first; thirteen further
    inactive frames leave the last twelve. *)
Lemma idle_buffer_bound_witness :
  capacity source_config = 12%Z /\
  Queue.queue (buffer source_full_buffer)
  = map tone [1; 2; 3; 4; 5; 6; 7; 8; 9; 10; 11; 12]%Z /\
  Queue.queue (buffer (state_of (_handle_audio_sample source_config hears_hello
                                   (tone 13) false source_full_buffer)))
  = map tone [2; 3; 4; 5; 6; 7; 8; 9; 10; 11; 12; 13]%Z /\
  Queue.queue (buffer (feed source_config hears_hello
                         (inactive (map tone [13; 14; 15; 16; 17; 18; 19; 20;
                                              21; 22; 23; 24; 25]%Z))
                         source_full_buffer))
  = map tone [14; 15; 16; 17; 18; 19; 20; 21; 22; 23; 24; 25]%Z.
Proof.
  assert (Hcap : (0 < capacity source_config)%Z) by (vm_compute; reflexivity).
  assert (Hreach : reachable source_config source_full_buffer).
  { apply feed_reachable, fresh_engine_reachable. discriminate. }
  destruct (idle_buffer_bound source_config hears_hello source_full_buffer
              Hcap Hreach) as (_ & Hevict & Hlast).
  split; [vm_compute; reflexivity|].
  split; [vm_compute; reflexivity|]. split.
  - rewrite (Hevict (tone 13) false) by (vm_compute; reflexivity).
    vm_compute. reflexivity.
  - destruct (Hlast (map tone [13; 14; 15; 16; 17; 18; 19; 20;
                               21; 22; 23; 24; 25]%Z)) as (Hq & _).
    + vm_compute. reflexivity.
    + vm_compute. discriminate.
    + rewrite Hq. vm_compute. reflexivity.
Defined.

(** C7 at work: activation on a full buffer. *)
Lemma activation_snapshots_buffer_witness :
  let o := _handle_audio_sample scenario_config hears_hello (tone 5) true
             scenario_full_buffer in
  recording_started scenario_full_buffer = false /\
  o = Ok None (state_of o) [] /\
  samples (state_of o) = [tone 2; tone 3; tone 4; tone 5] /\
  recording_started (state_of o) = true /\
  gap_counter (state_of o) = 0%Z.
Proof.
  intros o.
  assert (Hidle : recording_started scenario_full_buffer = false)
    by (vm_compute; reflexivity).
  destruct (activation_snapshots_buffer scenario_config hears_hello
              scenario_full_buffer (tone 5)
              scenario_full_buffer_reachable Hidle)
    as (H1 & _ & H3 & H4 & H5).
  split; [exact Hidle|]. split; [exact H1|].
  split; [|split; [exact H4 | exact H5]].
  fold o in H3. rewrite H3. vm_compute. reflexivity.
Defined.

(** C8 as stated fails.  With [BUFFER_SIZE = 0] the capacity is 0, yet two
    inactive frames are both kept in the buffer and the snapshot taken at
    activation holds three frames. *)
Lemma zero_capacity_buffer_fills :
  capacity zero_buffer_config = 0%Z /\
  Queue.queue (buffer (feed zero_buffer_config hears_hello
                         (inactive [tone 1; tone 2])
                         (fresh_engine zero_buffer_config)))
  = [tone 1; tone 2] /\
  samples (feed zero_buffer_config hears_hello
             (inactive [tone 1; tone 2] ++ [(tone 3, true)])
             (fresh_engine zero_buffer_config))
  = [tone 1; tone 2; tone 3].
Proof.
  repeat split; vm_compute; reflexivity.
Qed.

(** C8 (amended) at work on a fresh engine of capacity 0. *)
Lemma zero_capacity_is_unbounded_witness :
  capacity zero_buffer_config = 0%Z /\
  Queue.queue (buffer (feed zero_buffer_config hears_hello
                         (inactive [tone 1; tone 2])
                         (fresh_engine zero_buffer_config)))
  = [tone 1; tone 2] /\
  samples (feed zero_buffer_config hears_hello
             (inactive [tone 1; tone 2] ++ [(tone 3, true)])
             (fresh_engine zero_buffer_config))
  = [tone 1; tone 2; tone 3].
Proof.
  assert (Hcap : capacity zero_buffer_config = 0%Z) by (vm_compute; reflexivity).
  destruct (zero_capacity_is_unbounded zero_buffer_config hears_hello
              (fresh_engine zero_buffer_config) Hcap
              (fresh_engine_reachable zero_buffer_config zero_buffer_vad))
    as (_ & Hall).
  destruct (Hall [tone 1; tone 2] (tone 3) eq_refl) as (Hq & Hs).
  split; [exact Hcap|]. split; [exact Hq | exact Hs].
Defined.

(** C10 at work: the twelfth frame of the scenario with a collaborator
    that hears nothing. *)
Lemma falsy_transcription_keeps_recording_witness :
  let o := _handle_audio_sample scenario_config hears_nothing (tone 12) false
             scenario_before_last in
  (threshold scenario_config <= gap_counter scenario_before_last + 1)%Z /\
  truthy (PyStr EmptyString) = false /\
  o = Ok None (state_of o)
         (finalize_trace (samples scenario_before_last ++ [tone 12])) /\
  recording_started (state_of o) = true /\
  List.length (samples (state_of o)) = 10.
Proof.
  intros o.
  assert (Hth : (threshold scenario_config
                 <= gap_counter scenario_before_last + 1)%Z)
    by (vm_compute; discriminate).
  destruct (falsy_transcription_keeps_recording scenario_config hears_nothing
              scenario_before_last (tone 12) (PyStr EmptyString) []
              scenario_vad eq_refl Hth eq_refl eq_refl)
    as (H1 & H2 & H3 & _).
  split; [exact Hth|]. split; [reflexivity|]. split; [exact H1|].
  split; [exact H2|]. fold o in H3. rewrite H3. vm_compute. reflexivity.
Defined.

(** * Further properties of the recorder *)

Section Runs.

Context {sample : Type}.
Variable cfg : config.
Variable transcribe : list sample -> reply.

Implicit Types (st : engine sample) (f : frame sample) (a : bool).

(** Nothing but inactive frames: the loop consumes them all and waits. *)
Lemma listen_silence (fs : list (frame sample)) :
  forall st,
    inv cfg st -> recording_started st = false ->
    _listen_and_respond cfg transcribe (inactive fs) st
    = Hang (feed cfg transcribe (inactive fs) st) [].
Proof.
  induction fs as [|f fs IH]; intros st Hinv Hrec.
  - reflexivity.
  - cbn [inactive map _listen_and_respond feed]. fold (inactive fs).
    unfold bind at 1.
    pose proof (handle_preserves_inv cfg transcribe st f false Hinv) as Hinv1.
    destruct Hinv as (Hm & Hb & _).
    rewrite handle_idle in * by (auto; rewrite Hm; auto).
    cbn [state_of] in *. rewrite after_nil. apply IH; auto.
Qed.

(** What the loop has done when it raises. *)
Lemma listen_exn (q : list (frame sample * bool)) :
  forall st e st' tr,
    inv cfg st -> VAD_SIZE cfg <> 0%Z ->
    _listen_and_respond cfg transcribe q st = Exn e st' tr ->
    exists consumed f rest pre,
      q = consumed ++ (f, false) :: rest /\
      st' = with_input_stream false
              (paused f (feed cfg transcribe consumed st)) /\
      recording_started (feed cfg transcribe consumed st) = true /\
      e = TranscribeError /\
      tr = pre ++ finalize_trace (samples st') /\
      existsb is_reset_log pre = false /\
      transcribe (List.concat (samples st')) = Raises.
Proof.
  induction q as [|[f a] q IH]; intros st e st' tr Hinv Hv Hrun.
  - discriminate.
  - cbn [_listen_and_respond] in Hrun. unfold bind at 1 in Hrun.
    pose proof (handle_preserves_inv cfg transcribe st f a Hinv) as Hinv1.
    destruct (handle_cases cfg transcribe st f a Hinv Hv)
      as [(st1 & Hstep & _) | (Hrec & -> & Hg & Hstep)].
    + rewrite Hstep in Hrun, Hinv1. cbn [state_of] in Hinv1.
      rewrite after_nil in Hrun.
      destruct (IH _ _ _ _ Hinv1 Hv Hrun)
        as (consumed & f' & rest & pre & -> & Hst & Hr & He & Htr & Hpre & Htx).
      exists ((f, a) :: consumed), f', rest, pre.
      cbn [feed app]. rewrite Hstep. cbn [state_of]. auto 10.
    + rewrite Hstep in Hrun, Hinv1. unfold finalized in Hrun, Hinv1.
      destruct (transcribe (List.concat (samples st ++ [f]))) as [|text] eqn:Htx.
      * inversion Hrun; subst.
        exists [], f, q, []. cbn [feed app]. repeat split; auto.
      * cbn [state_of] in Hinv1.
        destruct (truthy text) eqn:Htt; [discriminate|].
        destruct (_listen_and_respond cfg transcribe q
                    (with_input_stream false (paused f st)))
          as [| e2 st2 tr2 |] eqn:Hl; try discriminate.
        cbn [after] in Hrun. inversion Hrun; subst.
        destruct (IH _ _ _ _ Hinv1 Hv Hl)
          as (consumed & f' & rest & pre & -> & Hst & Hr & He & Htr & Hpre & Htx').
        exists ((f, false) :: consumed), f', rest,
          (finalize_trace (samples st ++ [f]) ++ pre).
        cbn [feed app]. rewrite Hstep. unfold finalized. rewrite Htx, Htt.
        cbn [state_of]. rewrite existsb_app, Hpre, <- app_assoc, Htr.
        repeat split; auto.
Qed.

(** The gap counter has reached the threshold when the loop returns. *)
Lemma listen_result_gap (q : list (frame sample * bool)) :
  forall st r rest st' tr,
    inv cfg st -> VAD_SIZE cfg <> 0%Z ->
    _listen_and_respond cfg transcribe q st = Ok (r, rest) st' tr ->
    (threshold cfg <= gap_counter st')%Z /\ input_stream st' = false.
Proof.
  induction q as [|[f a] q IH]; intros st r rest st' tr Hinv Hv Hrun.
  - discriminate.
  - cbn [_listen_and_respond] in Hrun. unfold bind at 1 in Hrun.
    pose proof (handle_preserves_inv cfg transcribe st f a Hinv) as Hinv1.
    destruct (handle_cases cfg transcribe st f a Hinv Hv)
      as [(st1 & Hstep & _) | (Hrec & -> & Hg & Hstep)].
    + rewrite Hstep in Hrun, Hinv1. cbn [state_of] in Hinv1.
      rewrite after_nil in Hrun. exact (IH _ _ _ _ _ Hinv1 Hv Hrun).
    + rewrite Hstep in Hrun, Hinv1. unfold finalized in Hrun, Hinv1.
      destruct (transcribe (List.concat (samples st ++ [f]))) as [|text] eqn:Htx;
        [discriminate|].
      cbn [state_of] in Hinv1.
      destruct (truthy text) eqn:Htt.
      * cbn in Hrun. inversion Hrun; subst. cbn. auto.
      * apply after_ok in Hrun. destruct Hrun as (tr' & Hrun & ->).
        exact (IH _ _ _ _ _ Hinv1 Hv Hrun).
Qed.

(** A collaborator that never hears anything keeps the loop waiting. *)
Lemma listen_falsy (q : list (frame sample * bool)) :
  (forall audio, exists text,
      transcribe audio = Returns text /\ truthy text = false) ->
  forall st,
    inv cfg st -> VAD_SIZE cfg <> 0%Z ->
    exists tr,
      _listen_and_respond cfg transcribe q st
      = Hang (feed cfg transcribe q st) tr /\
      existsb is_reset_log tr = false.
Proof.
  intros Hdeaf.
  induction q as [|[f a] q IH]; intros st Hinv Hv.
  - exists []. split; reflexivity.
  - cbn [_listen_and_respond feed]. unfold bind at 1.
    pose proof (handle_preserves_inv cfg transcribe st f a Hinv) as Hinv1.
    destruct (handle_cases cfg transcribe st f a Hinv Hv)
      as [(st1 & Hstep & _) | (Hrec & -> & Hg & Hstep)].
    + rewrite Hstep in *. cbn [state_of] in *. rewrite after_nil.
      apply IH; auto.
    + rewrite Hstep in *. unfold finalized in *.
      destruct (Hdeaf (List.concat (samples st ++ [f]))) as (text & Htx & Htt).
      rewrite Htx, Htt in *. cbn [state_of] in *.
      destruct (IH _ Hinv1 Hv) as (tr & Hl & Htr).
      rewrite Hl. cbn [after]. eexists. split; [reflexivity|].
      rewrite existsb_app, Htr. reflexivity.
Qed.

(** Taking [start_listening] apart. *)
Lemma start_listening_ok (q : list (frame sample * bool)) st r rest st' tr :
  start_listening cfg transcribe q st = Ok (r, rest) st' tr ->
  exists st2 tr2,
    _listen_and_respond cfg transcribe q (with_input_stream true st)
    = Ok (r, rest) st2 tr2 /\
    st' = state_of (reset st2) /\
    tr = EvStreamStart :: tr2 ++ [EvLog "Resetting recorder..."].
Proof.
  intros Hrun.
  unfold start_listening in Hrun. unfold bind at 1 in Hrun.
  change (input_stream_start st)
    with (Ok tt (with_input_stream true st) [@EvStreamStart sample]) in Hrun.
  apply after_ok in Hrun. destruct Hrun as (tr1 & Hrun & ->).
  unfold bind at 1 in Hrun.
  destruct (_listen_and_respond cfg transcribe q (with_input_stream true st))
    as [[r2 rest2] st2 tr2| |] eqn:Hl; try discriminate.
  apply after_ok in Hrun. destruct Hrun as (tr3 & Hrun & ->).
  unfold bind at 1 in Hrun. rewrite reset_eq in Hrun. cbn in Hrun.
  inversion Hrun; subst.
  exists st2, tr2. rewrite reset_eq. cbn. auto.
Qed.

Lemma start_listening_exn (q : list (frame sample * bool)) st e st' tr :
  start_listening cfg transcribe q st = Exn e st' tr ->
  exists tr2,
    _listen_and_respond cfg transcribe q (with_input_stream true st)
    = Exn e st' tr2 /\
    tr = EvStreamStart :: tr2.
Proof.
  intros Hrun.
  unfold start_listening in Hrun. unfold bind at 1 in Hrun.
  change (input_stream_start st)
    with (Ok tt (with_input_stream true st) [@EvStreamStart sample]) in Hrun.
  unfold bind at 1 in Hrun.
  destruct (_listen_and_respond cfg transcribe q (with_input_stream true st))
    as [[r2 rest2] st2 tr2| e2 st2 tr2 |] eqn:Hl.
  - cbn [after] in Hrun. unfold bind at 1 in Hrun. rewrite reset_eq in Hrun.
    cbn in Hrun. discriminate.
  - cbn [after] in Hrun. inversion Hrun; subst. eauto.
  - discriminate.
Qed.

Lemma start_eq (q : list (frame sample * bool)) st :
  start cfg transcribe q st
  = after [EvLog "Starting Listening..."; EvStreamStart]
          (_listen_and_respond cfg transcribe q (with_input_stream true st)).
Proof.
  unfold start. unfold bind at 1. cbn [logger_info emit after app].
  unfold bind at 1.
  change (input_stream_start st)
    with (Ok tt (with_input_stream true st) [@EvStreamStart sample]).
  cbn [after].
  destruct (_listen_and_respond cfg transcribe q (with_input_stream true st));
    reflexivity.
Qed.

End Runs.

Section Sessions.

Context {sample : Type}.
Variable cfg : config.
Variable transcribe : list sample -> reply.

Implicit Types (st : engine sample) (f : frame sample) (a : bool).

Lemma fresh_started_eq st1 st2 :
  is_fresh cfg st1 -> is_fresh cfg st2 ->
  with_input_stream true st1 = with_input_stream true st2.
Proof.
  intros (Hr1 & Hs1 & Hg1 & Hb1) (Hr2 & Hs2 & Hg2 & Hb2).
  destruct st1, st2. cbn in *. subst. reflexivity.
Qed.

Lemma start_listening_eq (tr2 : list sample -> reply)
      (q : list (frame sample * bool)) st :
  start_listening cfg tr2 q st
  = after [EvStreamStart]
      (bind (_listen_and_respond cfg tr2 q)
            (fun heard_text => bind reset (fun _ => ret heard_text))
            (with_input_stream true st)).
Proof. reflexivity. Qed.

(** X1. From a reachable state a call never blocks, and it raises in one
    case only: the frame is inactive, the pause threshold is reached and
    the collaborator itself raises.  The exception then leaves the engine
    recording, with the frame appended, the counter incremented and the
    input stream stopped. *)
Theorem handle_raises_only_for_collaborator st f a :
  reachable cfg st ->
  let o := _handle_audio_sample cfg transcribe f a st in
  (forall st' tr, o <> Hang st' tr) /\
  (forall e st' tr,
      o = Exn e st' tr ->
      e = TranscribeError /\
      recording_started st = true /\ a = false /\
      (threshold cfg <= gap_counter st + 1)%Z /\
      transcribe (List.concat (samples st ++ [f])) = Raises) /\
  (recording_started st = true -> a = false ->
   (threshold cfg <= gap_counter st + 1)%Z ->
   transcribe (List.concat (samples st ++ [f])) = Raises ->
   o = Exn TranscribeError (with_input_stream false (paused f st))
           (finalize_trace (samples st ++ [f]))).
Proof.
  intros Hreach o.
  pose proof (reachable_inv cfg st Hreach) as Hinv.
  pose proof (reachable_vad cfg st Hreach) as Hv.
  subst o.
  destruct (handle_cases cfg transcribe st f a Hinv Hv)
    as [(st1 & Hstep & Hcase) | (Hrec & -> & Hg & Hstep)]; rewrite Hstep.
  - split; [discriminate|]. split; [discriminate|].
    intros Hrec -> Hg _. destruct (Hcase Hrec); [discriminate | lia].
  - unfold finalized.
    destruct (transcribe (List.concat (samples st ++ [f]))) as [|text] eqn:Htx.
    + split; [discriminate|]. split; [|reflexivity].
      intros e st' tr [= <- _ _]. auto.
    + split; [discriminate|]. split; [discriminate|].
      intros _ _ _ Habs. discriminate Habs.
Qed.

(** X2. Silence never wakes the recorder: on a queue of inactive frames an
    idle engine consumes every frame, calls nobody, logs nothing, and then
    waits for the next frame, still idle; only its buffer has moved. *)
Theorem silence_never_returns st (fs : list (frame sample)) :
  reachable cfg st ->
  recording_started st = false ->
  let st' := feed cfg transcribe (inactive fs) st in
  _listen_and_respond cfg transcribe (inactive fs) st = Hang st' [] /\
  recording_started st' = false /\
  samples st' = samples st /\
  gap_counter st' = gap_counter st /\
  input_stream st' = input_stream st.
Proof.
  intros Hreach Hrec st'. subst st'.
  pose proof (reachable_inv cfg st Hreach) as Hinv.
  split; [apply listen_silence; auto|].
  rewrite feed_inactive_idle by auto. cbn. auto.
Qed.

(** X3. The result the listening loop returns from a fresh engine is the
    transcription of one contiguous span: what the buffer retained of the
    frames up to and including the activating one, followed by every frame
    consumed after it, in order; the last frame consumed is inactive, the
    frames behind it are left in the queue, and the dictionary carries the
    collaborator's truthy answer under the fixed speaker name. *)
Theorem result_transcribes_whole_span st0 (fs : list (frame sample)) f rest
        r rest' st' tr :
  VAD_SIZE cfg <> 0%Z ->
  is_fresh cfg st0 ->
  _listen_and_respond cfg transcribe (inactive fs ++ (f, true) :: rest) st0
  = Ok (r, rest') st' tr ->
  exists body x text,
    rest = body ++ (x, false) :: rest' /\
    samples st'
    = retained (capacity cfg) (fs ++ [f]) ++ map fst body ++ [x] /\
    transcribe (List.concat (samples st')) = Returns text /\
    truthy text = true /\
    r = {| name := "GoldRoger"; content := text; type := "text" |}.
Proof.
  intros Hv Hfresh Hrun.
  pose proof (fresh_inv cfg st0 Hfresh) as Hinv.
  destruct Hfresh as (Hrec0 & _ & _ & Hbuf0).
  destruct (listen_result cfg transcribe _ _ _ _ _ _ Hinv Hv Hrun)
    as (consumed & x & pre & text & Heq & Hst & Hfed & Htr & _ & Htx & Htt & Hr).
  destruct (activation_consumed cfg transcribe fs st0 f rest consumed x rest'
              Hrec0 Hinv Heq Hfed) as (body & ->).
  destruct (feed_activation cfg transcribe fs f st0 Hrec0 Hinv)
    as (Hrec1 & Hs1 & _ & Hgap1).
  rewrite Hbuf0 in Hs1. cbn [Queue.create Queue.queue app] in Hs1.
  destruct (feed_recording cfg transcribe _ Hrec1 Hgap1 body) as (_ & Hs2 & _).
  exists body, x, text. split.
  - rewrite <- app_assoc in Heq. apply app_inv_head in Heq.
    cbn [app] in Heq. inversion Heq. reflexivity.
  - split; [|auto].
    rewrite Hst. cbn [samples with_input_stream paused with_gap_counter appended
                        with_samples].
    replace (inactive fs ++ (f, true) :: body)
      with ((inactive fs ++ [(f, true)]) ++ body)
      by (rewrite <- app_assoc; reflexivity).
    rewrite feed_app. cbn zeta in Hs2. rewrite Hs2, Hs1, <- app_assoc.
    reflexivity.
Qed.

(** X4. When [start_listening] raises, it is the collaborator's exception,
    and the engine is left as the failing call left it: recording, with the
    whole accumulator, the input stream stopped, and no reset done. *)
Theorem transcription_failure_skips_reset st
        (q : list (frame sample * bool)) e st' tr :
  reachable cfg st ->
  start_listening cfg transcribe q st = Exn e st' tr ->
  e = TranscribeError /\
  recording_started st' = true /\
  samples st' <> [] /\
  input_stream st' = false /\
  existsb is_reset_log tr = false /\
  transcribe (List.concat (samples st')) = Raises.
Proof.
  intros Hreach Hrun.
  pose proof (reachable_inv cfg st Hreach) as Hinv.
  pose proof (reachable_vad cfg st Hreach) as Hv.
  apply start_listening_exn in Hrun. destruct Hrun as (tr2 & Hl & ->).
  destruct (listen_exn cfg transcribe q (with_input_stream true st) _ _ _
              Hinv Hv Hl)
    as (consumed & f & rest & pre & _ & Hst & Hrec & He & Htr & Hpre & Htx).
  split; [exact He|]. split; [rewrite Hst; exact Hrec|].
  split; [rewrite Hst; cbn; apply not_eq_sym, app_cons_not_nil|].
  split; [rewrite Hst; reflexivity|]. split; [|exact Htx].
  rewrite Htr. cbn [existsb is_reset_log orb].
  rewrite existsb_app, Hpre. reflexivity.
Qed.

(** X5. When [start_listening] returns, the engine is as fresh as a newly
    built one, with the input stream stopped; the next [start_listening]
    therefore behaves exactly as it would on a new engine, whatever was
    said before. *)
Theorem start_listening_restores_fresh st
        (q : list (frame sample * bool)) r rest st' tr :
  reachable cfg st ->
  start_listening cfg transcribe q st = Ok (r, rest) st' tr ->
  is_fresh cfg st' /\
  input_stream st' = false /\
  forall (transcribe2 : list sample -> reply) q2 st0,
    is_fresh cfg st0 ->
    start_listening cfg transcribe2 q2 st'
    = start_listening cfg transcribe2 q2 st0.
Proof.
  intros Hreach Hrun.
  pose proof (reachable_inv cfg st Hreach) as Hinv.
  pose proof (reachable_vad cfg st Hreach) as Hv.
  apply start_listening_ok in Hrun.
  destruct Hrun as (st2 & tr2 & Hl & Hst & _).
  destruct (listen_result cfg transcribe q (with_input_stream true st) _ _ _ _
              Hinv Hv Hl)
    as (consumed & f & pre & text & _ & Hst2 & _).
  pose proof (feed_inv cfg transcribe consumed (with_input_stream true st) Hinv)
    as (Hm & _).
  assert (Hfresh : is_fresh cfg st').
  { rewrite Hst, reset_eq. cbn [state_of]. unfold is_fresh. cbn.
    repeat split. rewrite Hst2. cbn. unfold Queue.create. rewrite Hm.
    reflexivity. }
  split; [exact Hfresh|]. split.
  - rewrite Hst, reset_eq, Hst2. reflexivity.
  - intros transcribe2 q2 st0 Hfresh0.
    rewrite !start_listening_eq.
    rewrite (fresh_started_eq st' st0 Hfresh Hfresh0). reflexivity.
Qed.

(** X6. [start] returns without resetting.  The engine it leaves is still
    recording, holds the whole accumulator and a gap counter at or above
    the threshold; a second [start] therefore finalizes on its very first
    inactive frame and hands the collaborator the old audio again, with
    that frame added. *)
Theorem start_keeps_stale_audio st (q : list (frame sample * bool))
        r rest st' tr :
  reachable cfg st ->
  start cfg transcribe q st = Ok (r, rest) st' tr ->
  recording_started st' = true /\
  samples st' <> [] /\
  (threshold cfg <= gap_counter st')%Z /\
  existsb is_reset_log tr = false /\
  forall (transcribe2 : list sample -> reply) x more text,
    transcribe2 (List.concat (samples st' ++ [x])) = Returns text ->
    truthy text = true ->
    start cfg transcribe2 ((x, false) :: more) st'
    = Ok (heard_text text, more)
         (with_input_stream false (paused x st'))
         (EvLog "Starting Listening..." :: EvStreamStart
          :: finalize_trace (samples st' ++ [x])).
Proof.
  intros Hreach Hrun.
  pose proof (reachable_inv cfg st Hreach) as Hinv.
  pose proof (reachable_vad cfg st Hreach) as Hv.
  rewrite start_eq in Hrun. apply after_ok in Hrun.
  destruct Hrun as (tr2 & Hl & ->).
  destruct (listen_result cfg transcribe q (with_input_stream true st) _ _ _ _
              Hinv Hv Hl)
    as (consumed & f & pre & text & _ & Hst & Hrec & Htr & Hpre & _).
  destruct (listen_result_gap cfg transcribe q (with_input_stream true st)
              _ _ _ _ Hinv Hv Hl) as (Hgap & _).
  assert (Hrec' : recording_started st' = true) by (rewrite Hst; exact Hrec).
  split; [exact Hrec'|].
  split; [rewrite Hst; cbn; apply not_eq_sym, app_cons_not_nil|].
  split; [exact Hgap|]. split.
  - rewrite Htr. cbn [app existsb is_reset_log orb].
    rewrite existsb_app, Hpre. reflexivity.
  - intros transcribe2 x more text' Htx Htt.
    rewrite start_eq. cbn [_listen_and_respond]. unfold bind at 1.
    rewrite (handle_recording_finalize cfg transcribe2
               (with_input_stream true st') x) by (cbn; auto; lia).
    unfold finalized.
    cbn [samples with_input_stream] in *. rewrite Htx, Htt.
    destruct st'. reflexivity.
Qed.

(** X7. Submitting frames never ends a recording: from a recording engine,
    whatever the frames, their flags and the collaborator's answers, the
    engine is still recording afterwards, the buffer has not been touched,
    and the accumulator has grown by exactly the frames submitted, in
    order. *)
Theorem recording_only_ends_by_reset st (l : list (frame sample * bool)) :
  recording_started st = true ->
  let st' := feed cfg transcribe l st in
  recording_started st' = true /\
  buffer st' = buffer st /\
  samples st' = samples st ++ map fst l.
Proof.
  revert st. induction l as [|[f a] l IH]; intros st Hrec.
  - cbn. rewrite app_nil_r. auto.
  - cbn [feed map fst].
    destruct (handle_recording_state cfg transcribe st f a Hrec)
      as (Hs & Hb & Hr & _).
    destruct (IH _ Hr) as (Hr' & Hb' & Hs').
    cbn zeta in *. rewrite Hr', Hb', Hs', Hb, Hs, <- app_assoc.
    repeat split.
Qed.

(** X8. The shape of every reachable engine.  While idle the accumulator
    is empty and the gap counter is 0.  While recording the accumulator is
    not empty and the gap counter is non-negative and smaller than the
    number of accumulated frames.  The buffer always has the configured
    size, and [VAD_SIZE] is not zero. *)
Theorem reachable_state_shape st :
  reachable cfg st ->
  VAD_SIZE cfg <> 0%Z /\
  Queue.maxsize (buffer st) = capacity cfg /\
  (recording_started st = false ->
   samples st = [] /\ gap_counter st = 0%Z) /\
  (recording_started st = true ->
   samples st <> [] /\
   (0 <= gap_counter st < Z.of_nat (List.length (samples st)))%Z).
Proof.
  intros Hreach.
  split; [exact (reachable_vad cfg st Hreach)|].
  split; [exact (proj1 (reachable_inv cfg st Hreach))|].
  induction Hreach as [st Hinit | tr f a st Hreach IH | st _ _ | b st _ IH].
  - destruct (init_inv cfg st Hinit) as (_ & Hr & Hs & Hg & _).
    split; [auto|]. rewrite Hr. discriminate.
  - destruct IH as (Hidle & Hrecording).
    destruct (recording_started st) eqn:Hrec.
    + destruct (handle_recording_state cfg tr st f a Hrec)
        as (Hs & _ & Hr & Hg).
      destruct (Hrecording eq_refl) as (_ & Hrange).
      rewrite Hs, Hr, Hg, length_app. cbn [List.length].
      split; [discriminate|]. intros _.
      split; [apply not_eq_sym, app_cons_not_nil|]. destruct a; lia.
    + destruct (reachable_inv cfg st Hreach) as (Hm & Hb & _).
      destruct (Hidle eq_refl) as (Hs & Hg).
      rewrite handle_idle by (auto; rewrite Hm; auto).
      cbn [state_of]. unfold idle_step, inserted. destruct a; cbn.
      * split; [discriminate|]. intros _.
        split; [apply not_eq_sym, app_cons_not_nil|].
        rewrite Hg, length_app. cbn [List.length]. lia.
      * rewrite Hrec. split; [auto | discriminate].
  - rewrite reset_eq. cbn. split; [auto | discriminate].
  - exact IH.
Qed.

(** X9. The input stream is stopped by every finalizing call, whatever the
    collaborator answers, and by no other call; no call starts it. *)
Theorem finalizing_stops_the_stream st f a :
  reachable cfg st ->
  let o := _handle_audio_sample cfg transcribe f a st in
  input_stream (state_of o)
  = (if finalizes o then false else input_stream st) /\
  (In EvStreamStop (trace_of o) <-> finalizes o = true) /\
  ~ In EvStreamStart (trace_of o).
Proof.
  intros Hreach o.
  pose proof (reachable_inv cfg st Hreach) as Hinv.
  pose proof (reachable_vad cfg st Hreach) as Hv.
  subst o.
  destruct (handle_cases cfg transcribe st f a Hinv Hv)
    as [(st1 & Hstep & _) | (Hrec & -> & Hg & Hstep)].
  - assert (Hstream : input_stream st1 = input_stream st).
    { destruct (recording_started st) eqn:Hrec.
      - destruct a.
        + rewrite handle_recording_active in Hstep by exact Hrec.
          inversion Hstep. reflexivity.
        + destruct (Z_lt_le_dec (gap_counter st + 1) (threshold cfg)).
          * rewrite handle_recording_below in Hstep by auto.
            inversion Hstep. reflexivity.
          * rewrite handle_recording_finalize in Hstep by auto.
            unfold finalized in Hstep.
            destruct (transcribe (List.concat (samples st ++ [f])));
              [discriminate|].
            inversion Hstep.
      - destruct Hinv as (Hm & Hb & _).
        rewrite handle_idle in Hstep by (auto; rewrite Hm; auto).
        inversion Hstep. unfold idle_step. destruct a; reflexivity. }
    rewrite Hstep. cbn. split; [exact Hstream|].
    split; [split; [tauto | discriminate] | tauto].
  - rewrite Hstep. unfold finalized.
    destruct (transcribe (List.concat (samples st ++ [f]))) as [|text]; cbn.
    + split; [reflexivity|]. split; [split; auto|].
      intros [H|[H|[H|[H|[]]]]]; discriminate H.
    + split; [reflexivity|]. split; [split; auto|].
      intros [H|[H|[H|[H|[]]]]]; discriminate H.
Qed.

(** X10. With a collaborator that returns only falsy texts the listening
    loop never returns: it consumes the whole queue, resets nothing, and
    waits, the engine being the one left by the frames submitted. *)
Theorem deaf_collaborator_never_returns st (q : list (frame sample * bool)) :
  (forall audio, exists text,
      transcribe audio = Returns text /\ truthy text = false) ->
  reachable cfg st ->
  exists tr,
    _listen_and_respond cfg transcribe q st
    = Hang (feed cfg transcribe q st) tr /\
    existsb is_reset_log tr = false.
Proof.
  intros Hdeaf Hreach.
  apply listen_falsy; auto.
  - apply reachable_inv, Hreach.
  - apply (reachable_vad cfg st Hreach).
Qed.

End Sessions.

(** X1 at work: the twelfth frame of the scenario with a collaborator that
    raises. *)
Lemma handle_raises_only_for_collaborator_witness :
  let o := _handle_audio_sample scenario_config always_fails (tone 12) false
             scenario_before_last in
  o = Exn TranscribeError
          (with_input_stream false (paused (tone 12) scenario_before_last))
          (finalize_trace (samples scenario_before_last ++ [tone 12])) /\
  recording_started (state_of o) = true /\
  input_stream (state_of o) = false.
Proof.
  intros o.
  assert (Ho : o = Exn TranscribeError
                 (with_input_stream false (paused (tone 12) scenario_before_last))
                 (finalize_trace (samples scenario_before_last ++ [tone 12]))).
  { apply (handle_raises_only_for_collaborator scenario_config always_fails
             scenario_before_last (tone 12) false
             scenario_before_last_reachable).
    - vm_compute; reflexivity.
    - reflexivity.
    - vm_compute; discriminate.
    - reflexivity. }
  split; [exact Ho|]. rewrite Ho. split; vm_compute; reflexivity.
Defined.

(** X2 at work: five inactive frames on a fresh engine. *)
Lemma silence_never_returns_witness :
  let fs := [tone 1; tone 2; tone 3; tone 4; tone 5] in
  _listen_and_respond scenario_config hears_hello (inactive fs)
                      (fresh_engine scenario_config)
  = Hang (feed scenario_config hears_hello (inactive fs)
               (fresh_engine scenario_config)) [] /\
  Queue.queue (buffer (feed scenario_config hears_hello (inactive fs)
                            (fresh_engine scenario_config)))
  = [tone 2; tone 3; tone 4; tone 5].
Proof.
  intros fs. split; [|vm_compute; reflexivity].
  apply (silence_never_returns scenario_config hears_hello
           (fresh_engine scenario_config) fs
           (fresh_engine_reachable scenario_config scenario_vad)).
  reflexivity.
Defined.

(** X3 at work on the scenario. *)
Lemma result_transcribes_whole_span_witness :
  let o := _listen_and_respond scenario_config hears_hello scenario
             (fresh_engine scenario_config) in
  exists body x text,
    [(tone 7, true); (tone 8, true)]
    ++ inactive [tone 9; tone 10; tone 11; tone 12]
    = body ++ (x, false) :: [] /\
    samples (state_of o)
    = retained (capacity scenario_config)
               ([tone 1; tone 2; tone 3; tone 4; tone 5] ++ [tone 6])
      ++ map fst body ++ [x] /\
    hears_hello (List.concat (samples (state_of o))) = Returns text /\
    truthy text = true /\
    heard_text (PyStr "hello")
    = {| name := "GoldRoger"; content := text; type := "text" |}.
Proof.
  intros o.
  apply (result_transcribes_whole_span scenario_config hears_hello
           (fresh_engine scenario_config)
           [tone 1; tone 2; tone 3; tone 4; tone 5] (tone 6)
           ([(tone 7, true); (tone 8, true)]
            ++ inactive [tone 9; tone 10; tone 11; tone 12])
           (heard_text (PyStr "hello")) [] (state_of o) (trace_of o)
           scenario_vad (fresh_engine_fresh scenario_config)).
  vm_compute. reflexivity.
Defined.

(** X4 at work: the scenario with a collaborator that raises. *)
Lemma transcription_failure_skips_reset_witness :
  let o := start_listening scenario_config always_fails scenario
             (fresh_engine scenario_config) in
  o = Exn TranscribeError (state_of o) (trace_of o) /\
  recording_started (state_of o) = true /\
  List.length (samples (state_of o)) = 10 /\
  existsb is_reset_log (trace_of o) = false.
Proof.
  intros o.
  assert (Ho : o = Exn TranscribeError (state_of o) (trace_of o))
    by (vm_compute; reflexivity).
  destruct (transcription_failure_skips_reset scenario_config always_fails
              (fresh_engine scenario_config) scenario
              TranscribeError (state_of o) (trace_of o)
              (fresh_engine_reachable scenario_config scenario_vad) Ho)
    as (_ & Hrec & _ & _ & Hlog & _).
  split; [exact Ho|]. split; [exact Hrec|].
  split; [vm_compute; reflexivity | exact Hlog].
Defined.

(** X5 at work on the scenario. *)
Lemma start_listening_restores_fresh_witness :
  let o := start_listening scenario_config hears_hello scenario
             (fresh_engine scenario_config) in
  o = Ok (heard_text (PyStr "hello"), []) (state_of o) (trace_of o) /\
  is_fresh scenario_config (state_of o) /\
  start_listening scenario_config hears_hello scenario (state_of o) = o.
Proof.
  intros o.
  assert (Ho : o = Ok (heard_text (PyStr "hello"), []) (state_of o) (trace_of o))
    by (vm_compute; reflexivity).
  destruct (start_listening_restores_fresh scenario_config hears_hello
              (fresh_engine scenario_config) scenario
              (heard_text (PyStr "hello")) [] (state_of o) (trace_of o)
              (fresh_engine_reachable scenario_config scenario_vad) Ho)
    as (Hfresh & _ & Hsame).
  split; [exact Ho|]. split; [exact Hfresh|].
  exact (Hsame hears_hello scenario (fresh_engine scenario_config)
               (fresh_engine_fresh scenario_config)).
Defined.

(** X6 at work: [start] on the scenario, then [start] again on one
    inactive frame, which is transcribed together with the ten old ones. *)
Lemma start_keeps_stale_audio_witness :
  let o := start scenario_config hears_hello scenario
             (fresh_engine scenario_config) in
  let o2 := start scenario_config hears_hello [(tone 13, false)] (state_of o) in
  o = Ok (heard_text (PyStr "hello"), []) (state_of o) (trace_of o) /\
  recording_started (state_of o) = true /\
  o2 = Ok (heard_text (PyStr "hello"), []) (state_of o2) (trace_of o2) /\
  List.length (samples (state_of o2)) = 11.
Proof.
  intros o o2.
  assert (Ho : o = Ok (heard_text (PyStr "hello"), []) (state_of o) (trace_of o))
    by (vm_compute; reflexivity).
  destruct (start_keeps_stale_audio scenario_config hears_hello
              (fresh_engine scenario_config) scenario
              (heard_text (PyStr "hello")) [] (state_of o) (trace_of o)
              (fresh_engine_reachable scenario_config scenario_vad) Ho)
    as (Hrec & _ & _ & _ & Hagain).
  split; [exact Ho|]. split; [exact Hrec|].
  pose proof (Hagain hears_hello (tone 13) [] (PyStr "hello") eq_refl eq_refl)
    as Ho2.
  fold o2 in Ho2. rewrite Ho2. split; vm_compute; reflexivity.
Defined.

(** X7 at work: a recording engine given a finalizing frame and two more. *)
Lemma recording_only_ends_by_reset_witness :
  let st' := feed scenario_config hears_hello
               [(tone 12, false); (tone 13, true); (tone 14, false)]
               scenario_before_last in
  recording_started scenario_before_last = true /\
  recording_started st' = true /\
  buffer st' = buffer scenario_before_last /\
  samples st'
  = samples scenario_before_last ++ [tone 12; tone 13; tone 14].
Proof.
  intros st'.
  assert (Hrec : recording_started scenario_before_last = true)
    by (vm_compute; reflexivity).
  split; [exact Hrec|].
  exact (recording_only_ends_by_reset scenario_config hears_hello
           scenario_before_last
           [(tone 12, false); (tone 13, true); (tone 14, false)] Hrec).
Defined.

(** X8 at work one frame before the end of the scenario. *)
Lemma reachable_state_shape_witness :
  recording_started scenario_before_last = true /\
  samples scenario_before_last <> [] /\
  (0 <= gap_counter scenario_before_last
   < Z.of_nat (List.length (samples scenario_before_last)))%Z.
Proof.
  assert (Hrec : recording_started scenario_before_last = true)
    by (vm_compute; reflexivity).
  split; [exact Hrec|].
  exact (proj2 (proj2 (proj2 (reachable_state_shape scenario_config
                                scenario_before_last
                                scenario_before_last_reachable))) Hrec).
Defined.

(** X9 at work: the finalizing frame of the scenario stops the stream that
    [start] had started. *)
Lemma finalizing_stops_the_stream_witness :
  let st := with_input_stream true scenario_before_last in
  let o := _handle_audio_sample scenario_config hears_nothing (tone 12) false st in
  input_stream st = true /\
  finalizes o = true /\
  input_stream (state_of o) = false.
Proof.
  intros st o.
  assert (Hfin : finalizes o = true) by (vm_compute; reflexivity).
  split; [reflexivity|]. split; [exact Hfin|].
  destruct (finalizing_stops_the_stream scenario_config hears_nothing st
              (tone 12) false
              (reach_stream scenario_config true scenario_before_last
                 scenario_before_last_reachable)) as (Hs & _).
  fold o in Hs. rewrite Hs, Hfin. reflexivity.
Defined.

(** X10 at work: the scenario with a collaborator that hears nothing. *)
Lemma deaf_collaborator_never_returns_witness :
  exists tr,
    _listen_and_respond scenario_config hears_nothing scenario
                        (fresh_engine scenario_config)
    = Hang (feed scenario_config hears_nothing scenario
                 (fresh_engine scenario_config)) tr /\
    existsb is_reset_log tr = false.
Proof.
  apply (deaf_collaborator_never_returns scenario_config hears_nothing
           (fresh_engine scenario_config) scenario).
  - intros audio. exists (PyStr EmptyString). split; reflexivity.
  - exact (fresh_engine_reachable scenario_config scenario_vad).
Defined.

(** * The Discord path *)

Section DiscordFacts.

Context {V G : Type}.
Variable transcribe : V -> reply.
Variable predict : V -> option G.

(** X11. [process_detected_audio_discord] returns a dictionary exactly when
    the message has a ['data'] entry, the classifier and the collaborator
    both return, the text is truthy and the message has a ['name'] entry;
    the dictionary then echoes the name and the audio, and carries the
    text, the gender and the type ["audio"]. *)
Theorem discord_returns_dictionary_iff (input_sample : Discord.dict V)
        (h : Discord.heard V G) (tr : list (Discord.event V)) :
  Discord.process_detected_audio_discord transcribe predict input_sample
  = Discord.Returned (Some h) tr
  <->
  exists data g text speaker,
    Discord.getitem input_sample "data" = Some data /\
    predict data = Some g /\
    transcribe data = Returns text /\
    truthy text = true /\
    Discord.getitem input_sample "name" = Some speaker /\
    h = Discord.Build_heard speaker text g "audio" data /\
    tr = [Discord.EvPredict data; Discord.EvTranscribe data].
Proof.
  unfold Discord.process_detected_audio_discord, Discord.discord_asr.
  split.
  - destruct (Discord.getitem input_sample "data") as [data|] eqn:Hdata; [|discriminate].
    destruct (predict data) as [g|] eqn:Hpred; [|discriminate].
    destruct (transcribe data) as [|text] eqn:Htx; cbn [truthy]; [discriminate|].
    destruct (truthy text) eqn:Htt; [|discriminate].
    destruct (Discord.getitem input_sample "name") as [speaker|] eqn:Hname; [|discriminate].
    intros [= <- <-]. exists data, g, text, speaker. repeat split; auto.
  - intros (data & g & text & speaker & -> & -> & -> & Htt & -> & -> & ->).
    rewrite Htt. reflexivity.
Qed.



End DiscordFacts.

(** * The action selection worker *)

Section ActionFacts.

Import ActionSelection.

Context {R I SP B : Type}.
Variable env : collaborators R I SP B.

Implicit Types (st : state R) (a : action R).

Lemma prompts_app (tr1 tr2 : list (event R)) :
  prompts (tr1 ++ tr2) = prompts tr1 ++ prompts tr2.
Proof.
  induction tr1 as [|ev tr1 IH]; [reflexivity|].
  destruct ev; cbn; rewrite ?IH; reflexivity.
Qed.

Lemma fetched_app (tr1 tr2 : list (event R)) :
  fetched (tr1 ++ tr2) = fetched tr1 ++ fetched tr2.
Proof.
  induction tr1 as [|ev tr1 IH]; [reflexivity|].
  destruct ev; cbn; rewrite ?IH; reflexivity.
Qed.

(** Passes compose. *)
Lemma run_continue_app (n m : nat) :
  forall st st1 tr1,
    run n env st = Continue st1 tr1 ->
    run (n + m) env st
    = match run m env st1 with
      | Continue st2 tr2 => Continue st2 (tr1 ++ tr2)
      | Finished st2 tr2 => Finished st2 (tr1 ++ tr2)
      | Dies st2 tr2 => Dies st2 (tr1 ++ tr2)
      end.
Proof.
  induction n as [|n IH]; intros st st1 tr1 Hrun.
  - cbn in Hrun. inversion Hrun; subst. cbn [Nat.add app].
    destruct (run m env st1); reflexivity.
  - cbn [run Nat.add] in *.
    destruct (run_iteration env st) as [st' tr| |]; try discriminate.
    destruct (run n env st') as [st'' tr'| |] eqn:Hn; try discriminate.
    inversion Hrun; subst.
    rewrite (IH _ _ _ Hn).
    destruct (run m env st1); rewrite app_assoc; reflexivity.
Qed.

(** One pass on a queue whose head can be processed. *)
Lemma run_iteration_head st a (q : list (action R)) :
  stop_event st = false -> pause_event st = false ->
  queue st = a :: q ->
  (requires_input a = false -> start_action a <> None) ->
  exists tr,
    run_iteration env st = Continue (with_queue q st) tr /\
    fetched tr = [class_name a] /\
    prompts tr = delivered env a.
Proof.
  intros Hstop Hpause Hq Hok.
  unfold run_iteration, get_action, delivered.
  rewrite Hstop, Hpause, Hq.
  destruct (requires_input a) eqn:Hin.
  - destruct (fetch_and_format env a) as [result|].
    + eexists. split; [reflexivity|].
      destruct (not_is_blocking_action a); split; reflexivity.
    + eexists. split; [reflexivity|]. split; reflexivity.
  - destruct (start_action a) as [result|].
    + eexists. split; [reflexivity|]. split; reflexivity.
    + exfalso. apply Hok; reflexivity.
Qed.



(** X15. The worker never waits on an empty queue: a pass that finds it
    empty enqueues the default action and the next pass runs it, so [2 n]
    passes from an empty queue run the default action [n] times and leave
    the queue empty again. *)
Theorem empty_queue_runs_default st a (n : nat) :
  stop_event st = false ->
  pause_event st = false ->
  queue st = [] ->
  select_action env = Some a ->
  (requires_input a = false -> start_action a <> None) ->
  exists tr,
    run (2 * n) env st = Continue st tr /\
    fetched tr = repeat (class_name a) n /\
    prompts tr = List.concat (repeat (delivered env a) n).
Proof.
  intros Hstop Hpause Hq Hsel Hok.
  assert (Htwo : exists tr,
             run 2 env st = Continue st tr /\
             fetched tr = [class_name a] /\
             prompts tr = delivered env a).
  { destruct (run_iteration_head (with_queue [a] st) a [] Hstop Hpause eq_refl Hok)
      as (tr & Hstep & Hf & Hp).
    exists (EvQueueEmpty :: EvAdded (class_name a) :: tr).
    cbn [run]. unfold run_iteration at 1, get_action, add_action.
    rewrite Hstop, Hpause, Hq, Hsel. cbn [app]. rewrite Hstep.
    cbn [fetched prompts]. rewrite app_nil_r, Hf, Hp.
    destruct st. cbn in *. subst. auto. }
  destruct Htwo as (tr2 & Hrun2 & Hf2 & Hp2).
  induction n as [|n IH].
  - exists []. auto.
  - destruct IH as (tr & Hrun & Hf & Hp).
    exists (tr2 ++ tr).
    replace (2 * S n) with (2 + 2 * n) by lia.
    rewrite (run_continue_app 2 (2 * n) st st tr2 Hrun2), Hrun.
    rewrite fetched_app, prompts_app, Hf, Hp, Hf2, Hp2. auto.
Qed.

(** X16. While the pause event is set the worker handles nothing: however
    many passes it makes, and whether joining its thread returns or raises,
    no action leaves the queue and nothing reaches the inference queue. *)
Theorem paused_worker_handles_nothing st (n : nat) :
  stop_event st = false ->
  pause_event st = true ->
  state_of (run n env st) = st /\
  fetched (trace_of (run n env st)) = [] /\
  prompts (trace_of (run n env st)) = [].
Proof.
  intros Hstop Hpause.
  induction n as [|n IH]; [auto|].
  cbn [run]. unfold run_iteration. rewrite Hstop, Hpause.
  destruct (thread_join env); [|auto].
  destruct (run n env st) as [st' tr| st' tr | st' tr]; cbn in *; exact IH.
Qed.

(** X17. The not-blocking event is set in one case only: the action at the
    head of the queue requires input, is flagged as not blocking, and its
    prompt could be fetched and formatted.  An action that requires no
    input never sets it, whatever its flag. *)
Theorem not_blocking_event_needs_input st :
  In EvNotBlockingSet (trace_of (run_iteration env st))
  <->
  stop_event st = false /\ pause_event st = false /\
  exists a rest result,
    queue st = a :: rest /\
    requires_input a = true /\
    not_is_blocking_action a = true /\
    fetch_and_format env a = Some result.
Proof.
  unfold run_iteration, get_action, add_action.
  destruct (stop_event st); [cbn; split; [tauto | intros (H & _); discriminate]|].
  destruct (pause_event st).
  { destruct (thread_join env); cbn;
      (split; [intros [H|[]]; discriminate | intros (_ & H & _); discriminate]). }
  destruct (queue st) as [|a rest].
  { destruct (select_action env); cbn;
      (split; [intros H; repeat (destruct H as [H|H]; try discriminate); tauto
              | intros (_ & _ & a' & rest' & r' & H & _); discriminate]). }
  destruct (requires_input a) eqn:Hin.
  - destruct (fetch_and_format env a) as [result|] eqn:Hfmt.
    + destruct (not_is_blocking_action a) eqn:Hnb; cbn.
      * split; [|auto]. intros _. repeat split.
        exists a, rest, result. auto.
      * split.
        -- intros H; repeat (destruct H as [H|H]; try discriminate); tauto.
        -- intros (_ & _ & a' & rest' & r' & [= <- <-] & _ & Habs & _).
           congruence.
    + cbn. split.
      * intros H; repeat (destruct H as [H|H]; try discriminate); tauto.
      * intros (_ & _ & a' & rest' & r' & [= <- <-] & _ & _ & Habs).
        congruence.
  - destruct (start_action a); cbn.
    + split.
      * intros H; repeat (destruct H as [H|H]; try discriminate); tauto.
      * intros (_ & _ & a' & rest' & r' & [= <- <-] & Habs & _). congruence.
    + split.
      * intros H; repeat (destruct H as [H|H]; try discriminate); tauto.
      * intros (_ & _ & a' & rest' & r' & [= <- <-] & Habs & _). congruence.
Qed.

End ActionFacts.

(** X11 at work: a complete message and a collaborator that hears. *)
Lemma discord_returns_dictionary_iff_witness :
  Discord.process_detected_audio_discord discord_hears discord_predict
    discord_message
  = Discord.Returned
      (Some (Discord.Build_heard "alice"%string (PyStr "hello")
               "female"%string "audio" "pcm"%string))
      [Discord.EvPredict "pcm"%string; Discord.EvTranscribe "pcm"%string].
Proof.
  apply (discord_returns_dictionary_iff discord_hears discord_predict).
  exists "pcm"%string, "female"%string, (PyStr "hello"), "alice"%string.
  repeat split.
Defined.




(** X15 at work: six passes from an empty queue run the default action
    three times. *)
Lemma empty_queue_runs_default_witness :
  exists tr,
    ActionSelection.run 6 helpful (worker_with [])
    = ActionSelection.Continue (worker_with []) tr /\
    ActionSelection.fetched tr
    = ["IdleChatter"; "IdleChatter"; "IdleChatter"]%string /\
    ActionSelection.prompts tr = ["humming"; "humming"; "humming"]%string.
Proof.
  apply (empty_queue_runs_default helpful (worker_with []) idle_chatter 3);
    try reflexivity.
  discriminate.
Defined.

(** X16 at work: a paused worker with one queued action. *)
Lemma paused_worker_handles_nothing_witness :
  let st := ActionSelection.pause_action (worker_with [wave]) in
  ActionSelection.state_of (ActionSelection.run 5 helpful st) = st /\
  ActionSelection.fetched (ActionSelection.trace_of (ActionSelection.run 5 helpful st)) = [] /\
  ActionSelection.prompts (ActionSelection.trace_of (ActionSelection.run 5 helpful st)) = [].
Proof.
  intros st.
  apply (paused_worker_handles_nothing helpful st 5); reflexivity.
Defined.

(** X17 at work: [wave] is flagged as not blocking but requires no input,
    so the event stays clear; [answer] sets it. *)
Lemma not_blocking_event_needs_input_witness :
  ~ In ActionSelection.EvNotBlockingSet
       (ActionSelection.trace_of
          (ActionSelection.run_iteration helpful (worker_with [wave]))) /\
  In ActionSelection.EvNotBlockingSet
     (ActionSelection.trace_of
        (ActionSelection.run_iteration helpful (worker_with [answer]))).
Proof.
  split.
  - intros H.
    apply (not_blocking_event_needs_input helpful (worker_with [wave])) in H.
    destruct H as (_ & _ & a & rest & r & Hq & Hin & _).
    inversion Hq; subst. discriminate Hin.
  - apply (not_blocking_event_needs_input helpful (worker_with [answer])).
    repeat split.
    exists answer, [], "systemansweringcalmhi"%string. repeat split.
Defined.
